(** * gloo-remote-auth-plugin: the remote authorization service

    A shallow embedding of [plugins/remote_auth/pkg/impl.go] (package [pkg])
    and of the earlier revision of the same file kept as
    [src/unnamed/part_000], followed by the properties of the two.

    Go maps are [gmap]s; the order in which [range] visits a map is chosen by
    the runtime and is modelled by an explicit iteration oracle.  Calls into
    the Go standard library whose code is outside the repository
    ([fmt] on floats, [net/http], [encoding/json]) are section variables. *)

From stdpp Require Import gmap strings list fin_maps pretty.
From Stdlib Require Import ZArith Floats.SpecFloat.

#[local] Set Warnings "-register-all,-clear-no-such-hyp".
#[local] Open Scope string_scope.
#[local] Open Scope list_scope.
#[local] Open Scope Z_scope.

(** ** Dynamically typed values ([interface{}]) *)

Module reflect.

(** [reflect.Kind], in the order of the Go declaration. *)
Inductive Kind :=
| Invalid | Bool
| Int | Int8 | Int16 | Int32 | Int64
| Uint | Uint8 | Uint16 | Uint32 | Uint64 | Uintptr
| Float32 | Float64 | Complex64 | Complex128
| Array | Chan | Func | Interface | Map | Ptr | Slice | String | Struct
| UnsafePointer.

#[export] Instance Kind_eq_dec : EqDecision Kind.
Proof. solve_decision. Defined.

End reflect.

(** The signed, unsigned and floating types, by kind. *)
Inductive IntType := TInt | TInt8 | TInt16 | TInt32 | TInt64.
Inductive UintType := TUint | TUint8 | TUint16 | TUint32 | TUint64 | TUintptr.
Inductive FloatType := TFloat32 | TFloat64.

(** Kinds that carry nothing the plugin looks at. *)
Inductive OpaqueType := TComplex64 | TComplex128 | TChan | TFunc | TPtr | TStruct
                      | TUnsafePointer.

(** What an [interface{}] can hold.  [VInt t n] is the value [n] of the signed
    type [t] as [reflect.Value.Int] returns it (an int64), [VUint] likewise
    with [Uint] (a uint64), and [VFloat t f] the float64 that
    [reflect.Value.Float] returns.  [VSlice] is a [[]interface{}], [VMap] a
    [map[string]interface{}] (a decoded JSON object), [VNil] the nil
    interface (a decoded JSON null). *)
Inductive value :=
| VNil
| VBool (b : bool)
| VInt (t : IntType) (n : Z)
| VUint (t : UintType) (n : N)
| VFloat (t : FloatType) (f : spec_float)
| VString (s : string)
| VSlice (l : list value)
| VArray (l : list value)
| VMap (m : gmap string value)
| VOpaque (t : OpaqueType).

(** [reflect.ValueOf(raw).Kind()]. *)
Definition Kind (raw : value) : reflect.Kind :=
  match raw with
  | VNil => reflect.Invalid
  | VBool _ => reflect.Bool
  | VInt TInt _ => reflect.Int
  | VInt TInt8 _ => reflect.Int8
  | VInt TInt16 _ => reflect.Int16
  | VInt TInt32 _ => reflect.Int32
  | VInt TInt64 _ => reflect.Int64
  | VUint TUint _ => reflect.Uint
  | VUint TUint8 _ => reflect.Uint8
  | VUint TUint16 _ => reflect.Uint16
  | VUint TUint32 _ => reflect.Uint32
  | VUint TUint64 _ => reflect.Uint64
  | VUint TUintptr _ => reflect.Uintptr
  | VFloat TFloat32 _ => reflect.Float32
  | VFloat TFloat64 _ => reflect.Float64
  | VString _ => reflect.String
  | VSlice _ => reflect.Slice
  | VArray _ => reflect.Array
  | VMap _ => reflect.Map
  | VOpaque TComplex64 => reflect.Complex64
  | VOpaque TComplex128 => reflect.Complex128
  | VOpaque TChan => reflect.Chan
  | VOpaque TFunc => reflect.Func
  | VOpaque TPtr => reflect.Ptr
  | VOpaque TStruct => reflect.Struct
  | VOpaque TUnsafePointer => reflect.UnsafePointer
  end.

(** ** The pieces of [fmt] and [strings] that the plugin calls *)

(** [fmt.Sprintf("%v", b)] for a bool. *)
Definition Sprintf_v_bool (b : bool) : string :=
  if b then "true" else "false".

(** [fmt.Sprintf("%v", n)] for an int64 and for a uint64: decimal digits. *)
Definition Sprintf_v_int (n : Z) : string := pretty n.
Definition Sprintf_v_uint (n : N) : string := pretty n.

(** [strings.Join(elems, sep)]. *)
Fixpoint Join (elems : list string) (sep : string) : string :=
  match elems with
  | [] => ""
  | [s] => s
  | s :: rest => s +:+ sep +:+ Join rest sep
  end.

(** The kinds for which [stringifyValue] has a case. *)
Definition stringified_kinds : list reflect.Kind :=
  [ reflect.Bool;
    reflect.Int; reflect.Int8; reflect.Int32; reflect.Int64;
    reflect.Uint; reflect.Uint8; reflect.Uint32; reflect.Uint64;
    reflect.Float32; reflect.Float64;
    reflect.String;
    reflect.Slice; reflect.Array ].

Section Stringify.

(** [fmt.Sprintf("%v", f)] for a float64 (strconv's shortest form). *)
Variable Sprintf_v_float : spec_float → string.

(** The loop of the [Slice]/[Array] case, over the elements in index order:
    [if s := stringifyValue(elem); s != nil { arr = append(arr, *s) }]. *)
Definition collect (rec : value → option string) (l : list value) : list string :=
  foldl (λ arr elem,
           match rec elem with
           | Some s => arr ++ [s]
           | None => arr
           end) [] l.

(** [stringifyValue]; [None] is the nil [*string]. *)
Fixpoint stringifyValue (raw : value) : option string :=
  match raw with
  | VBool b => Some (Sprintf_v_bool b)
  | VInt TInt n | VInt TInt8 n | VInt TInt32 n | VInt TInt64 n =>
      Some (Sprintf_v_int n)
  | VUint TUint n | VUint TUint8 n | VUint TUint32 n | VUint TUint64 n =>
      Some (Sprintf_v_uint n)
  | VFloat TFloat32 f | VFloat TFloat64 f => Some (Sprintf_v_float f)
  | VString s => Some s
  | VSlice l | VArray l => Some (Join (collect stringifyValue l) ",")
  | _ => None
  end.

End Stringify.


(** ** Errors and results

    A Go function returning [(T, error)] returns [Ok t] for [(t, nil)] and
    [Err e] for [(nil, e)].  An [error] is kept as its message. *)

Definition error := string.

Inductive result (A : Type) :=
| Ok (a : A)
| Err (e : error).
Arguments Ok {A} a.
Arguments Err {A} e.

(** ** The packages the plugin is written against *)

Module http.

(** An outbound request: [Header] is Go's [map[string][]string]. *)
Record Request := {
  Method : string;
  URL : string;
  Header : gmap string (list string);
}.

(** A response as [Client.Do] hands it over: the status code and the body,
    a stream nobody has read yet. *)
Record Response := {
  StatusCode : Z;
  Body : string;
}.

(** [h.Add(key, value)]: append [value] to the values filed under [key].
    (net/http files them under the canonical MIME spelling of [key]; names
    are kept here as the caller spells them.) *)
Definition Header_Add (key value : string) (r : Request) : Request :=
  {| Method := Method r;
     URL := URL r;
     Header := <[key := (Header r !!! key) ++ [value]]> (Header r) |}.

End http.

Module envoycorev2.

Record HeaderValue := {
  Key : string;
  Value : string;
}.

Record HeaderValueOption := {
  Header : HeaderValue;
}.

End envoycorev2.

Module api.

(** The part of the check request that the plugin reads:
    [CheckRequest.GetAttributes().GetRequest().GetHttp().GetHeaders()]. *)
Record AuthorizationRequest := {
  GetHeaders : gmap string string;
}.

(** [api.UnauthenticatedResponse()], and [api.AuthorizedResponse()] with the
    headers of its [OkResponse] set. *)
Inductive AuthorizationResponse :=
| UnauthenticatedResponse
| AuthorizedResponse (Headers : list envoycorev2.HeaderValueOption).

End api.

(** ** Effects: what a call does besides returning

    A computation returns its result together with the events it caused, in
    order: log lines, the outbound HTTP call, and the read of a response
    body by the JSON decoder. *)

Inductive Level := InfoLevel | ErrorLevel.

Inductive FieldValue :=
| FString (s : string)
| FInt (n : Z)
| FError (e : error)
| FStrings (l : list string)
| FStringMap (m : gmap string string)
| FHeaders (hs : list envoycorev2.HeaderValueOption).

(** A structured log field, [zap.Any(key, v)] and the like. *)
Definition Field : Type := string * FieldValue.

(** A sugared logger is the context it was built [With]. *)
Definition Logger := list Field.

Inductive Event :=
| EvLog (lvl : Level) (context : Logger) (msg : string) (fields : list Field)
| EvDo (request : http.Request)
| EvRead (body : string).

Definition M (A : Type) : Type := list Event * result A.

Definition trace {A} (m : M A) : list Event := m.1.
Definition outcome {A} (m : M A) : result A := m.2.

#[export] Instance M_ret : MRet M := λ A a, ([], Ok a).

#[export] Instance M_bind : MBind M := λ A B f m,
  match m.2 with
  | Ok a => (m.1 ++ (f a).1, (f a).2)
  | Err e => (m.1, Err e)
  end.

(** [return nil, err]. *)
Definition fail {A} (e : error) : M A := ([], Err e).

Definition emit (ev : Event) : M unit := ([ev], Ok tt).

(** A library call that has no effect of its own. *)
Definition lift {A} (r : result A) : M A := ([], r).

(** [logger(ctx)]: the logger named remote_auth_plugin, with no context. *)
Definition logger : Logger := [].

Definition With (log : Logger) (key : string) (v : FieldValue) : Logger :=
  log ++ [(key, v)].

Definition Infow (log : Logger) (msg : string) (fields : list Field) : M unit :=
  emit (EvLog InfoLevel log msg fields).

Definition Errorw (log : Logger) (msg : string) (fields : list Field) : M unit :=
  emit (EvLog ErrorLevel log msg fields).

Definition zap_Error (e : error) : Field := ("error", FError e).

(** ** The order of [range] over a map

    Go leaves the order unspecified; a run gets it from an oracle that lists
    the entries of the map, each once, in some order. *)

Record MapRange := {
  range : ∀ V : Type, gmap string V → list (string * V);
  range_perm : ∀ V (m : gmap string V), range V m ≡ₚ map_to_list m;
}.
Arguments range _ {V} m.

(** The order stdpp lists a map in is one such order. *)
Definition range_sorted : MapRange :=
  {| range := λ V m, map_to_list m;
     range_perm := λ V m, reflexivity (map_to_list m) |}.

(** Another one: the same entries, last to first. *)
Program Definition range_reversed : MapRange :=
  {| range := λ V m, reverse (map_to_list m) |}.
Next Obligation. intros V m. apply reverse_Permutation. Qed.

(** [if err != nil { h(err); return nil, err }] after a call [m]. *)
Definition or_else {A} (m : M A) (h : error → M unit) : M A :=
  match m.2 with
  | Ok _ => m
  | Err e => (m.1 ++ (h e).1, Err e)
  end.

(** ** The plugin: [plugins/remote_auth/pkg/impl.go] *)

Module Config.

Record Config := {
  AuthUrl : string;
  ForwardRequestHeaders : list string;
  RequestIdHeader : string;
  ResponseHeaders : gmap string string;
}.

End Config.

(** The [configInstance interface{}] handed to [GetAuthService]: a [*Config],
    or a value of another type, of which [%T] prints the name. *)
Inductive ConfigInstance :=
| ConfigPtr (config : Config.Config)
| NotConfig (typ : string).

Definition UnexpectedConfigError (typ : string) : error :=
  "unexpected config type " +:+ typ.

Record RemoteAuthService := {
  httpClient : http.Request → result http.Response;
  AuthUrl : string;
  ForwardRequestHeaders : gmap string bool;
  AttributesToHeadersMap : gmap string string;
  RequestIdHeader : string;
}.

Section Plugin.

Variable Sprintf_v_float : spec_float → string.

(** The error with which [http.NewRequestWithContext] rejects a URL, if it
    does. *)
Variable url_Parse_error : string → option error.

(** [json.NewDecoder(r).Decode(&data)] on the bytes of [r], for
    [data map[string]interface{}]. *)
Variable json_Decode : string → result (gmap string value).

(** [(&http.Client{}).Do]: the network as the default client reaches it. *)
Variable DefaultClient_Do : http.Request → result http.Response.

Definition NewRequestWithContext (method url : string) : result http.Request :=
  match url_Parse_error url with
  | Some e => Err e
  | None => Ok {| http.Method := method; http.URL := url; http.Header := ∅ |}
  end.

(** [c.httpClient.Do(request)]. *)
Definition Do (c : RemoteAuthService) (request : http.Request) : M http.Response :=
  emit (EvDo request);; lift (httpClient c request).

(** [json.NewDecoder(authzBody).Decode(&data)]: reads the body. *)
Definition Decode (authzBody : string) : M (gmap string value) :=
  emit (EvRead authzBody);; lift (json_Decode authzBody).

Definition GetAuthService (configInstance : ConfigInstance) : M RemoteAuthService :=
  match configInstance with
  | NotConfig typ => fail (UnexpectedConfigError typ)
  | ConfigPtr config =>
      Infow logger "Parsed RemoteAuthPlugin config"
        [ ("authUrl", FString (Config.AuthUrl config));
          ("forwardRequestHeaders", FStrings (Config.ForwardRequestHeaders config));
          ("requestIdHeader", FString (Config.RequestIdHeader config));
          ("responseHeaders", FStringMap (Config.ResponseHeaders config)) ];;
      let forwardHeadersMap :=
        foldl (λ m v, <[v := true]> m) ∅ (Config.ForwardRequestHeaders config) in
      let attributesToHeaderMap := Config.ResponseHeaders config in
      mret {| httpClient := DefaultClient_Do;
              AuthUrl := Config.AuthUrl config;
              ForwardRequestHeaders := forwardHeadersMap;
              AttributesToHeadersMap := attributesToHeaderMap;
              RequestIdHeader := Config.RequestIdHeader config |}
  end.

Definition forwardAllowedHeaders (rng : MapRange) (c : RemoteAuthService)
    (remoteRequest : http.Request) (authzRequest : api.AuthorizationRequest)
    : http.Request :=
  let headers := api.GetHeaders authzRequest in
  foldl (λ remoteRequest '(key, shouldForward),
           if shouldForward : bool then
             match headers !! key with
             | Some value => http.Header_Add key value remoteRequest
             | None => remoteRequest
             end
           else remoteRequest)
        remoteRequest (range rng (ForwardRequestHeaders c)).

Definition extractRequestId (c : RemoteAuthService)
    (authzRequest : api.AuthorizationRequest) : option string :=
  if decide (RequestIdHeader c = "") then None
  else api.GetHeaders authzRequest !! RequestIdHeader c.

(** The loop of [extractResponseHeaders] over the decoded body (the test
    kept with [impl.go] calls it as [extractHeaders(data, attr)]). *)
Definition extractHeaders (rng : MapRange) (data : gmap string value)
    (attributesToHeadersMap : gmap string string)
    : list envoycorev2.HeaderValueOption :=
  foldl (λ headers '(attribute, header),
           match data !! attribute with
           | Some raw =>
               match stringifyValue Sprintf_v_float raw with
               | Some value =>
                   headers ++
                   [ {| envoycorev2.Header :=
                          {| envoycorev2.Key := header;
                             envoycorev2.Value := value |} |} ]
               | None => headers
               end
           | None => headers
           end)
        [] (range rng attributesToHeadersMap).

Definition extractResponseHeaders (rng : MapRange) (authzBody : string)
    (attributesToHeadersMap : gmap string string)
    : M (list envoycorev2.HeaderValueOption) :=
  data ← Decode authzBody;
  mret (extractHeaders rng data attributesToHeadersMap).

Definition Authorize (rng : MapRange) (c : RemoteAuthService)
    (authzRequest : api.AuthorizationRequest) : M api.AuthorizationResponse :=
  let log :=
    match extractRequestId c authzRequest with
    | Some requestId => With logger "request_id" (FString requestId)
    | None => logger
    end in
  request ← lift (NewRequestWithContext "GET" (AuthUrl c));
  let request := forwardAllowedHeaders rng c request authzRequest in
  response ← or_else (Do c request)
                (λ err, Errorw log "Unexpected error from upstream" [zap_Error err]);
  if decide (http.StatusCode response ≠ 200) then
    Infow log "Unsuccessful response from upstream, denying access"
      [("status_code", FInt (http.StatusCode response))];;
    mret api.UnauthenticatedResponse
  else
    responseHeaders ←
      or_else (extractResponseHeaders rng (http.Body response)
                 (AttributesToHeadersMap c))
        (λ err, Errorw log "Unexpected error while extracting response headers"
                  [zap_Error err]);
    Infow logger "Successful response from upstream, allowing request"
      [("response_headers", FHeaders responseHeaders)];;
    mret (api.AuthorizedResponse responseHeaders).

End Plugin.

(** ** The earlier revision: [src/unnamed/part_000]

    No request id; [GetAuthService] builds the attribute map by turning
    [ResponseHeaders] round; [forwardAllowedHeaders] ranges over the inbound
    headers.  [stringifyValue] and the extraction loop are the same text. *)

Module Earlier.

Module Config.

Record Config := {
  AuthUrl : string;
  ForwardRequestHeaders : list string;
  ResponseHeaders : gmap string string;
}.

End Config.

Inductive ConfigInstance :=
| ConfigPtr (config : Config.Config)
| NotConfig (typ : string).

Record RemoteAuthService := {
  httpClient : http.Request → result http.Response;
  AuthUrl : string;
  ForwardRequestHeaders : gmap string bool;
  AttributesToHeadersMap : gmap string string;
}.

Section Plugin.

Variable Sprintf_v_float : spec_float → string.
Variable url_Parse_error : string → option error.
Variable json_Decode : string → result (gmap string value).
Variable DefaultClient_Do : http.Request → result http.Response.

Definition Do (c : RemoteAuthService) (request : http.Request) : M http.Response :=
  emit (EvDo request);; lift (httpClient c request).

Definition GetAuthService (rng : MapRange) (configInstance : ConfigInstance)
    : M RemoteAuthService :=
  match configInstance with
  | NotConfig typ => fail (UnexpectedConfigError typ)
  | ConfigPtr config =>
      Infow logger "Parsed RemoteAuthPlugin config"
        [ ("authUrl", FString (Config.AuthUrl config));
          ("forwardRequestHeaders", FStrings (Config.ForwardRequestHeaders config));
          ("responseHeaders", FStringMap (Config.ResponseHeaders config)) ];;
      let forwardHeadersMap :=
        foldl (λ m v, <[v := true]> m) ∅ (Config.ForwardRequestHeaders config) in
      let attributesToHeaderMap :=
        foldl (λ m '(headerKey, attribute), <[attribute := headerKey]> m) ∅
              (range rng (Config.ResponseHeaders config)) in
      mret {| httpClient := DefaultClient_Do;
              AuthUrl := Config.AuthUrl config;
              ForwardRequestHeaders := forwardHeadersMap;
              AttributesToHeadersMap := attributesToHeaderMap |}
  end.

Definition forwardAllowedHeaders (rng : MapRange) (c : RemoteAuthService)
    (remoteRequest : http.Request) (authzRequest : api.AuthorizationRequest)
    : http.Request :=
  foldl (λ remoteRequest '(key, value),
           match ForwardRequestHeaders c !! key with
           | Some true => http.Header_Add key value remoteRequest
           | _ => remoteRequest
           end)
        remoteRequest (range rng (api.GetHeaders authzRequest)).

Definition extractResponseHeaders (rng : MapRange) (c : RemoteAuthService)
    (authzBody : string) : M (list envoycorev2.HeaderValueOption) :=
  data ← Decode json_Decode authzBody;
  mret (extractHeaders Sprintf_v_float rng data (AttributesToHeadersMap c)).

Definition Authorize (rng : MapRange) (c : RemoteAuthService)
    (authzRequest : api.AuthorizationRequest) : M api.AuthorizationResponse :=
  request ← lift (NewRequestWithContext url_Parse_error "GET" (AuthUrl c));
  let request := forwardAllowedHeaders rng c request authzRequest in
  response ← or_else (Do c request)
                (λ err, Errorw logger "Unexpected error from upstream" [zap_Error err]);
  if decide (http.StatusCode response ≠ 200) then
    Infow logger "Unsuccessful response from upstream, denying access" [];;
    mret api.UnauthenticatedResponse
  else
    Infow logger "Successful response from upstream, allowing request" [];;
    responseHeaders ←
      or_else (extractResponseHeaders rng c (http.Body response))
        (λ err, Errorw logger "Unexpected error while extracting response headers"
                  [zap_Error err]);
    mret (api.AuthorizedResponse responseHeaders).

End Plugin.

End Earlier.

(** ** Notions the properties are stated with *)

(** What one entry of the attribute map contributes to the headers: nothing
    when the body lacks the attribute or its value has no string. *)
Definition emitted (Sprintf_v_float : spec_float → string)
    (data : gmap string value) (entry : string * string)
    : option envoycorev2.HeaderValueOption :=
  raw ← data !! entry.1;
  value ← stringifyValue Sprintf_v_float raw;
  Some {| envoycorev2.Header :=
            {| envoycorev2.Key := entry.2; envoycorev2.Value := value |} |}.

(** The names a service forwards: the keys of [ForwardRequestHeaders] that
    are mapped to [true]. *)
Definition allowList (forwardRequestHeaders : gmap string bool) : gset string :=
  dom (filter (λ kv, kv.2 = true) forwardRequestHeaders).

(** The request [Authorize] starts from. *)
Definition blank_request (method url : string) : http.Request :=
  {| http.Method := method; http.URL := url; http.Header := ∅ |}.

(** Two services that differ at most in [RequestIdHeader]. *)
Definition same_but_RequestIdHeader (c1 c2 : RemoteAuthService) : Prop :=
  httpClient c1 = httpClient c2
  ∧ AuthUrl c1 = AuthUrl c2
  ∧ ForwardRequestHeaders c1 = ForwardRequestHeaders c2
  ∧ AttributesToHeadersMap c1 = AttributesToHeadersMap c2.

(** ** Concrete inputs *)

Definition header (key value : string) : envoycorev2.HeaderValueOption :=
  {| envoycorev2.Header :=
       {| envoycorev2.Key := key; envoycorev2.Value := value |} |}.

(** The body and the mapping of [TestExtractHeaders]. *)
Definition test_data : gmap string value :=
  {[ "userid" := VString "123456";
     "isserver" := VBool true;
     "roles" := VSlice [VString "admin"; VString "user"] ]}.

Definition test_attr : gmap string string :=
  {[ "userid" := "x-auth-subject-id";
     "isserver" := "x-auth-server-access";
     "roles" := "x-auth-roles";
     "not-present" := "x-auth-not-present" ]}.

Definition test_expectations : list envoycorev2.HeaderValueOption :=
  [ header "x-auth-subject-id" "123456";
    header "x-auth-server-access" "true";
    header "x-auth-roles" "admin,user" ].

Definition quoted (s : string) : string :=
  String (Ascii.ascii_of_N 34) (s +:+ String (Ascii.ascii_of_N 34) "").

(** The text of the test body. *)
Definition test_body : string :=
  "{" +:+ quoted "userid" +:+ ":" +:+ quoted "123456" +:+ ", "
      +:+ quoted "isserver" +:+ ": true, "
      +:+ quoted "roles" +:+ ": [" +:+ quoted "admin" +:+ ", "
      +:+ quoted "user" +:+ "]}".

(** Stand-ins for the library calls, to run the plugin on the inputs above:
    a float printer for the values that need no digits, a URL check that
    wants a scheme, and a decoder that knows three bodies. *)
Definition example_Sprintf_v_float (f : spec_float) : string :=
  match f with
  | S754_zero false => "0"
  | S754_zero true => "-0"
  | S754_infinity false => "+Inf"
  | S754_infinity true => "-Inf"
  | S754_nan => "NaN"
  | S754_finite _ _ _ => "?"
  end.

Definition example_url_Parse_error (url : string) : option error :=
  if decide (url = "") then Some "missing protocol scheme" else None.

Definition example_json_Decode (body : string) : result (gmap string value) :=
  if decide (body = test_body) then Ok test_data
  else if decide (body = "{}") then Ok ∅
  else if decide (body = "null") then Ok ∅
  else Err "invalid character".

(** A remote that answers 200 with the test body to requests that carry an
    [authorization] header, and 403 with a body that is not JSON to the
    others. *)
Definition example_Do (request : http.Request) : result http.Response :=
  match http.Header request !! "authorization" with
  | Some _ => Ok {| http.StatusCode := 200; http.Body := test_body |}
  | None => Ok {| http.StatusCode := 403; http.Body := "Forbidden" |}
  end.

(** A remote that answers 200 with text that is not JSON. *)
Definition example_Do_garbled (request : http.Request) : result http.Response :=
  Ok {| http.StatusCode := 200; http.Body := "<html>" |}.

Definition example_service : RemoteAuthService :=
  {| httpClient := example_Do;
     AuthUrl := "http://auth/check";
     ForwardRequestHeaders := {[ "authorization" := true; "cookie" := true ]};
     AttributesToHeadersMap := test_attr;
     RequestIdHeader := "x-request-id" |}.

Definition example_request : api.AuthorizationRequest :=
  {| api.GetHeaders :=
       {[ "authorization" := "Bearer t"; "x-request-id" := "r1";
          "accept" := "*/*" ]} |}.

Definition example_request_anonymous : api.AuthorizationRequest :=
  {| api.GetHeaders := {[ "x-request-id" := "r2"; "accept" := "*/*" ]} |}.

(** A configuration written header-name first, as the configuration surface
    is described. *)
Definition example_config : Config.Config :=
  {| Config.AuthUrl := "http://auth/check";
     Config.ForwardRequestHeaders := ["authorization"; "cookie"];
     Config.RequestIdHeader := "x-request-id";
     Config.ResponseHeaders := {[ "x-auth-subject-id" := "userid" ]} |}.

(** A remote that answers 200 with an empty object to the requests that carry
    an [x-request-id] header, and 403 to the others. *)
Definition example_Do_traced (request : http.Request) : result http.Response :=
  match http.Header request !! "x-request-id" with
  | Some _ => Ok {| http.StatusCode := 200; http.Body := "{}" |}
  | None => Ok {| http.StatusCode := 403; http.Body := "" |}
  end.

(** A service whose correlation header is also forwarded. *)
Definition example_service_traced : RemoteAuthService :=
  {| httpClient := example_Do_traced;
     AuthUrl := "http://auth/check";
     ForwardRequestHeaders := {[ "x-request-id" := true ]};
     AttributesToHeadersMap := test_attr;
     RequestIdHeader := "x-request-id" |}.

(** [example_service] with the request id switched off. *)
Definition example_service_no_id : RemoteAuthService :=
  {| httpClient := example_Do;
     AuthUrl := "http://auth/check";
     ForwardRequestHeaders := {[ "authorization" := true; "cookie" := true ]};
     AttributesToHeadersMap := test_attr;
     RequestIdHeader := "" |}.

(** [example_request] without its [x-request-id]. *)
Definition example_request_no_id : api.AuthorizationRequest :=
  {| api.GetHeaders := delete "x-request-id" (api.GetHeaders example_request) |}.

Definition example_request_only_id : api.AuthorizationRequest :=
  {| api.GetHeaders := {[ "x-request-id" := "r1" ]} |}.

Definition example_request_empty : api.AuthorizationRequest :=
  {| api.GetHeaders := ∅ |}.

(** The logger of a call: it carries the request id when there is one. *)
Definition call_logger (c : RemoteAuthService)
    (authzRequest : api.AuthorizationRequest) : Logger :=
  match extractRequestId c authzRequest with
  | Some requestId => With logger "request_id" (FString requestId)
  | None => logger
  end.

(** ** The rest of the package *)

(** [NewConfigInstance]: a pointer to the zero [Config], and no error. *)
Definition NewConfigInstance : result ConfigInstance :=
  Ok (ConfigPtr {| Config.AuthUrl := "";
                   Config.ForwardRequestHeaders := [];
                   Config.RequestIdHeader := "";
                   Config.ResponseHeaders := ∅ |}).

(** [Start]: nothing to start; the error returned is nil. *)
Definition Start (c : RemoteAuthService) : option error := None.

(** [ResponseHeaders], a slice of pointers to header options: a pointer may
    be nil, and so may the [Header] of an option. *)
Definition ResponseHeaders : Type := list (option (option envoycorev2.HeaderValue)).

(** [r.MarshalLogArray(marshaler)]: the strings appended to the encoder, in
    order, and the error returned.  [fmt.Sprintf("%s: %s", k, v)] is the two
    strings with a colon and a space between. *)
Definition MarshalLogArray (r : ResponseHeaders) : list string * option error :=
  (foldl (λ appended opt,
            match opt with
            | Some (Some h) =>
                appended ++ [envoycorev2.Key h +:+ ": " +:+ envoycorev2.Value h]
            | _ => appended
            end) [] r,
   None).

(** [opt != nil && opt.Header != nil]. *)
Definition has_header (opt : option (option envoycorev2.HeaderValue)) : bool :=
  match opt with
  | Some (Some _) => true
  | _ => false
  end.

(** The headers an extraction returns, as a [ResponseHeaders]: no pointer is
    nil. *)
Definition as_ResponseHeaders (hs : list envoycorev2.HeaderValueOption)
    : ResponseHeaders :=
  (λ hv, Some (Some (envoycorev2.Header hv))) <$> hs.

(** ** The test of the extraction ([TestExtractHeaders])

    The checks the test makes on the headers it got, as the list of the
    failures it reports with [t.Errorf]; it ranges over its map of
    expectations. *)

Definition expectations : gmap string string :=
  {[ "x-auth-subject-id" := "123456";
     "x-auth-server-access" := "true";
     "x-auth-roles" := "admin,user" ]}.

(** The inner loop: the value of the first header with the key, or the zero
    string. *)
Fixpoint first_value (headers : list envoycorev2.HeaderValueOption)
    (name : string) : string :=
  match headers with
  | [] => ""
  | h :: rest =>
      if decide (envoycorev2.Key (envoycorev2.Header h) = name)
      then envoycorev2.Value (envoycorev2.Header h)
      else first_value rest name
  end.

Definition test_checks (order : list (string * string))
    (headers : list envoycorev2.HeaderValueOption) : list string :=
  (if decide (length headers ≠ length order)
   then ["expect " +:+ pretty (length order) +:+ " results, got "
           +:+ pretty (length headers)]
   else [])
  ++ foldl (λ errors '(name, expected),
              let value := first_value headers name in
              if decide (value ≠ expected)
              then errors ++ ["expected header " +:+ name +:+ " to have value "
                                +:+ expected +:+ ", got " +:+ value]
              else errors)
           [] order.

Definition TestExtractHeaders (Sprintf_v_float : spec_float → string)
    (rng : MapRange) : list string :=
  let headers := extractHeaders Sprintf_v_float rng test_data test_attr in
  test_checks (range rng expectations) headers.

(** ** What a trace shows *)

(** The outbound calls of a trace, and the levels of its log lines. *)
Definition outbound_calls (tr : list Event) : list http.Request :=
  omap (λ ev, match ev with EvDo request => Some request | _ => None end) tr.

Definition log_levels (tr : list Event) : list Level :=
  omap (λ ev, match ev with EvLog lvl _ _ _ => Some lvl | _ => None end) tr.

(** The contexts the log lines of a trace were written with. *)
Definition log_contexts (tr : list Event) : list Logger :=
  omap (λ ev, match ev with EvLog _ context _ _ => Some context | _ => None end) tr.

(** An event with the context of its logger taken away. *)
Definition erase_context (ev : Event) : Event :=
  match ev with
  | EvLog lvl _ msg fields => EvLog lvl [] msg fields
  | _ => ev
  end.


(** More inputs to run on. *)
Definition example_request_capitalised : api.AuthorizationRequest :=
  {| api.GetHeaders := {[ "Authorization" := "Bearer t"; "Cookie" := "c" ]} |}.

Definition example_request_more : api.AuthorizationRequest :=
  {| api.GetHeaders :=
       <["user-agent" := "curl"]> (api.GetHeaders example_request) |}.

Definition example_Earlier_config : Earlier.Config.Config :=
  {| Earlier.Config.AuthUrl := "http://auth/check";
     Earlier.Config.ForwardRequestHeaders := ["authorization"];
     Earlier.Config.ResponseHeaders :=
       {[ "x-auth-subject-id" := "userid"; "x-auth-roles" := "roles" ]} |}.

(** * Properties *)

(** ** [stringifyValue] *)

Section StringifyFacts.

Variable Sprintf_v_float : spec_float → string.

#[local] Abbreviation stringify := (stringifyValue Sprintf_v_float).

Lemma omap_cons_case {A B} (f : A → option B) (x : A) (l : list A) :
  omap f (x :: l)
  = match f x with Some y => y :: omap f l | None => omap f l end.
Proof. done. Qed.

(** The append loop keeps, in order, the strings of the elements that have
    one. *)
Lemma collect_acc (rec : value → option string) (l : list value) (acc : list string) :
  foldl (λ arr elem, match rec elem with Some s => arr ++ [s] | None => arr end)
        acc l
  = acc ++ omap rec l.
Proof.
  revert acc. induction l as [|x l IH]; intros acc; simpl.
  - by rewrite app_nil_r.
  - rewrite IH. destruct (rec x) as [s|]; [|done].
    by rewrite <- app_assoc.
Qed.

Lemma collect_omap (rec : value → option string) (l : list value) :
  collect rec l = omap rec l.
Proof. unfold collect. by rewrite collect_acc. Qed.

Lemma stringifyValue_VSlice (l : list value) :
  stringify (VSlice l) = Some (Join (omap stringify l) ",").
Proof. simpl. by rewrite collect_omap. Qed.

Lemma stringifyValue_VArray (l : list value) :
  stringify (VArray l) = Some (Join (omap stringify l) ",").
Proof. simpl. by rewrite collect_omap. Qed.

(** X1: the switch of [stringifyValue] is on the kind alone: a value has a
    string exactly when its kind is one of the fourteen listed cases. *)
Lemma stringifyValue_Kind (raw : value) :
  is_Some (stringify raw) ↔ Kind raw ∈ stringified_kinds.
Proof.
  unfold stringified_kinds.
  destruct raw as [| |[]|[]|[]| | | | |[]]; simpl; split; intros H;
    try (by eexists);
    try (apply list_elem_of_In; simpl; tauto);
    try (by destruct H as [? [=]]);
    try (apply list_elem_of_In in H; simpl in H; intuition discriminate).
Qed.

(** When every element has a string, nothing is left out of the join. *)
Lemma omap_mapM (l : list value) (ss : list string) :
  mapM stringify l = Some ss → omap stringify l = ss.
Proof.
  rewrite mapM_Some. intros Hall.
  induction Hall as [|x y l' ss' Hx _ IH]; [done|].
  by rewrite omap_cons_case, Hx, IH.
Qed.

Lemma stringifyValue_join_all (l : list value) (ss : list string) :
  mapM stringify l = Some ss →
  stringify (VSlice l) = Some (Join ss ",")
  ∧ stringify (VArray l) = Some (Join ss ",").
Proof.
  intros Hall. rewrite stringifyValue_VSlice, stringifyValue_VArray.
  by rewrite (omap_mapM _ _ Hall).
Qed.

(** Booleans, floats and strings always have a string; so do the integers
    of the kinds the switch names. *)
Lemma stringifyValue_scalars (b : bool) (t : FloatType) (f : spec_float) (s : string)
    (n : Z) (u : N) :
  stringify (VBool b) = Some (Sprintf_v_bool b)
  ∧ stringify (VFloat t f) = Some (Sprintf_v_float f)
  ∧ stringify (VString s) = Some s
  ∧ Forall (λ t, stringify (VInt t n) = Some (Sprintf_v_int n))
           [TInt; TInt8; TInt32; TInt64]
  ∧ Forall (λ t, stringify (VUint t u) = Some (Sprintf_v_uint u))
           [TUint; TUint8; TUint32; TUint64].
Proof. destruct t; repeat split; repeat constructor. Qed.

(** C3 (as the code has it): an array always has a string, the comma-join, in
    element order, of the strings of those elements that have one; an element
    without a string is left out of the join and does not make the array
    unsupported. *)
Theorem stringifyValue_array_skips_unsupported (l : list value) :
  stringify (VSlice l) = Some (Join (omap stringify l) ",")
  ∧ stringify (VArray l) = Some (Join (omap stringify l) ",")
  ∧ (∀ s, s ∈ omap stringify l ↔ ∃ elem, elem ∈ l ∧ stringify elem = Some s)
  ∧ length (omap stringify l)
    = length (filter (λ elem, is_Some (stringify elem)) l).
Proof.
  split; [apply stringifyValue_VSlice|].
  split; [apply stringifyValue_VArray|].
  split; [intros s; apply list_elem_of_omap|].
  induction l as [|x l IH]; [done|]. rewrite omap_cons_case.
  destruct (stringify x) as [s|] eqn:Hx.
  - rewrite filter_cons_True by (by rewrite Hx). simpl. by rewrite IH.
  - rewrite filter_cons_False; [done|]. rewrite Hx. by intros [? ?].
Qed.


(** C8: a JSON object (a map) and null (the nil interface) have no string;
    the function returns [None] for them like for any other input it has no
    case for, it being total. *)
Theorem stringifyValue_object_null_unsupported (m : gmap string value) :
  Kind (VMap m) = reflect.Map
  ∧ stringify (VMap m) = None
  ∧ Kind VNil = reflect.Invalid
  ∧ stringify VNil = None.
Proof. done. Qed.

End StringifyFacts.

(** C3 (as stated) fails: the array [["admin", null, "user"]] has an element
    without a string and still has one itself, the element being dropped. *)
Lemma stringifyValue_array_not_unsupported :
  ¬ (∀ (Sprintf_v_float : spec_float → string) (l : list value),
       (∃ elem, elem ∈ l ∧ stringifyValue Sprintf_v_float elem = None) →
       stringifyValue Sprintf_v_float (VSlice l) = None)
  ∧ ∀ Sprintf_v_float,
      stringifyValue Sprintf_v_float
        (VSlice [VString "admin"; VNil; VString "user"]) = Some "admin,user".
Proof.
  split; [|done].
  intros Hclaim.
  specialize (Hclaim (λ _, "") [VString "admin"; VNil; VString "user"]).
  discriminate Hclaim. exists VNil. split; [|done]. set_solver.
Qed.

(** ** [extractHeaders] *)

Section ExtractFacts.

Variable Sprintf_v_float : spec_float → string.

#[local] Abbreviation stringify := (stringifyValue Sprintf_v_float).
#[local] Abbreviation extract := (extractHeaders Sprintf_v_float).

Lemma extractHeaders_acc (data : gmap string value) (order : list (string * string))
    (acc : list envoycorev2.HeaderValueOption) :
  foldl (λ headers '(attribute, header),
           match data !! attribute with
           | Some raw =>
               match stringify raw with
               | Some value =>
                   headers ++
                   [ {| envoycorev2.Header :=
                          {| envoycorev2.Key := header;
                             envoycorev2.Value := value |} |} ]
               | None => headers
               end
           | None => headers
           end)
        acc order
  = acc ++ omap (emitted Sprintf_v_float data) order.
Proof.
  revert acc. induction order as [|[attribute hdr] order IH]; intros acc.
  - by rewrite app_nil_r.
  - cbn [foldl]. rewrite IH, omap_cons_case. unfold emitted at 2. cbn [fst snd].
    destruct (data !! attribute) as [raw|]; [|done]. cbn [mbind option_bind].
    destruct (stringify raw) as [v|]; [|done]. cbn [mbind option_bind].
    by rewrite <- app_assoc.
Qed.

(** The loop is a filter-and-map over the entries in the order of the
    range. *)
Lemma extractHeaders_omap (rng : MapRange) (data : gmap string value)
    (attrs : gmap string string) :
  extract rng data attrs = omap (emitted Sprintf_v_float data) (range rng attrs).
Proof. unfold extractHeaders. by rewrite extractHeaders_acc. Qed.

Lemma emitted_Some (data : gmap string value) (entry : string * string)
    (hv : envoycorev2.HeaderValueOption) :
  emitted Sprintf_v_float data entry = Some hv
  ↔ ∃ raw, data !! entry.1 = Some raw
           ∧ stringify raw = Some (envoycorev2.Value (envoycorev2.Header hv))
           ∧ envoycorev2.Key (envoycorev2.Header hv) = entry.2.
Proof.
  unfold emitted. destruct (data !! entry.1) as [raw|]; cbn [mbind option_bind].
  - destruct (stringify raw) as [v|] eqn:Hs; cbn [mbind option_bind].
    + split.
      * intros [= <-]. by exists raw.
      * intros (raw' & [= <-] & Hv & Hk). destruct hv as [[k v']].
        simpl in *. congruence.
    + split; [done|]. intros (raw' & [= <-] & Hv & _). congruence.
  - split; [done|]. by intros (? & ? & _).
Qed.

Lemma elem_of_extractHeaders (rng : MapRange) (data : gmap string value)
    (attrs : gmap string string) (hv : envoycorev2.HeaderValueOption) :
  hv ∈ extract rng data attrs
  ↔ ∃ attribute raw,
      attrs !! attribute = Some (envoycorev2.Key (envoycorev2.Header hv))
      ∧ data !! attribute = Some raw
      ∧ stringify raw = Some (envoycorev2.Value (envoycorev2.Header hv)).
Proof.
  rewrite extractHeaders_omap, list_elem_of_omap. split.
  - intros ([attribute hdr] & Hin & Hem).
    rewrite (range_perm rng), elem_of_map_to_list in Hin.
    apply emitted_Some in Hem as (raw & Hraw & Hv & Hk). simpl in *.
    exists attribute, raw. by rewrite Hk.
  - intros (attribute & raw & Hattr & Hraw & Hv).
    exists (attribute, envoycorev2.Key (envoycorev2.Header hv)). split.
    + by rewrite (range_perm rng), elem_of_map_to_list.
    + apply emitted_Some. by exists raw.
Qed.

(** C4: per entry [(attribute, headerName)] of the mapping the extraction
    emits no header when the body lacks the attribute or its value has no
    string, and the one pair [(headerName, stringify(body[attribute]))]
    otherwise, in whatever order the range takes; it never fails.  On the
    body and mapping of the test that is the three headers
    [x-auth-subject-id=123456], [x-auth-server-access=true] and
    [x-auth-roles=admin,user], and none for [not-present]. *)
Theorem extractHeaders_per_entry (rng : MapRange) (data : gmap string value)
    (attrs : gmap string string) :
  extract rng data attrs ≡ₚ omap (emitted Sprintf_v_float data) (map_to_list attrs)
  ∧ (∀ attribute headerName,
       emitted Sprintf_v_float data (attribute, headerName)
       = match data !! attribute with
         | None => None
         | Some raw =>
             match stringify raw with
             | None => None
             | Some s => Some (header headerName s)
             end
         end)
  ∧ (∀ hv, hv ∈ extract rng data attrs
           ↔ ∃ attribute raw,
               attrs !! attribute = Some (envoycorev2.Key (envoycorev2.Header hv))
               ∧ data !! attribute = Some raw
               ∧ stringify raw = Some (envoycorev2.Value (envoycorev2.Header hv)))
  ∧ extract rng test_data test_attr ≡ₚ test_expectations
  ∧ length (extract rng test_data test_attr) = 3%nat.
Proof.
  assert (Hperm : ∀ d a, extract rng d a
                         ≡ₚ omap (emitted Sprintf_v_float d) (map_to_list a)).
  { intros d a. rewrite extractHeaders_omap. by rewrite (range_perm rng). }
  assert (Htest : extract rng test_data test_attr ≡ₚ test_expectations).
  { rewrite Hperm. vm_compute. apply Permutation_refl'. reflexivity. }
  split; [apply Hperm|].
  split.
  { intros attribute headerName. unfold emitted. simpl.
    destruct (data !! attribute) as [raw|]; [|done]. simpl.
    by destruct (stringify raw). }
  split; [intros hv; apply elem_of_extractHeaders|].
  split; [exact Htest|].
  by rewrite Htest.
Qed.

(** C10: the empty array has the empty string for its string, so a mapped
    attribute whose value is the empty array yields its header with an empty
    value. *)
Theorem extractHeaders_empty_array (rng : MapRange) (data : gmap string value)
    (attrs : gmap string string) (attribute headerName : string) :
  stringify (VSlice []) = Some ""
  ∧ stringify (VArray []) = Some ""
  ∧ (attrs !! attribute = Some headerName →
     data !! attribute = Some (VSlice []) →
     header headerName "" ∈ extract rng data attrs).
Proof.
  split; [done|]. split; [done|].
  intros Hattr Hdata. apply elem_of_extractHeaders.
  by exists attribute, (VSlice []).
Qed.

End ExtractFacts.

Lemma extractHeaders_empty_array_witness :
  header "x-auth-roles" "" ∈
    extractHeaders example_Sprintf_v_float range_sorted
      {[ "userid" := VString "123456"; "roles" := VSlice [] ]} test_attr.
Proof.
  apply (extractHeaders_empty_array example_Sprintf_v_float range_sorted
           {[ "userid" := VString "123456"; "roles" := VSlice [] ]} test_attr
           "roles" "x-auth-roles");
    vm_compute; reflexivity.
Defined.

(** ** [Authorize]: the status code decides *)

Section AuthorizeFacts.

Variable Sprintf_v_float : spec_float → string.
Variable url_Parse_error : string → option error.
Variable json_Decode : string → result (gmap string value).

#[local] Abbreviation authorize :=
  (Authorize Sprintf_v_float url_Parse_error json_Decode).
#[local] Abbreviation new_request := (NewRequestWithContext url_Parse_error).

(** [Authorize] once the request is built and the remote has answered. *)
Lemma Authorize_answered (rng : MapRange) (c : RemoteAuthService)
    (authzRequest : api.AuthorizationRequest)
    (request : http.Request) (response : http.Response) :
  new_request "GET" (AuthUrl c) = Ok request →
  httpClient c (forwardAllowedHeaders rng c request authzRequest) = Ok response →
  authorize rng c authzRequest
  = if decide (http.StatusCode response ≠ 200) then
      ([ EvDo (forwardAllowedHeaders rng c request authzRequest);
         EvLog InfoLevel (call_logger c authzRequest)
           "Unsuccessful response from upstream, denying access"
           [("status_code", FInt (http.StatusCode response))] ],
       Ok api.UnauthenticatedResponse)
    else
      match json_Decode (http.Body response) with
      | Err err =>
          ([ EvDo (forwardAllowedHeaders rng c request authzRequest);
             EvRead (http.Body response);
             EvLog ErrorLevel (call_logger c authzRequest)
               "Unexpected error while extracting response headers"
               [zap_Error err] ],
           Err err)
      | Ok data =>
          let responseHeaders :=
            extractHeaders Sprintf_v_float rng data (AttributesToHeadersMap c) in
          ([ EvDo (forwardAllowedHeaders rng c request authzRequest);
             EvRead (http.Body response);
             EvLog InfoLevel logger
               "Successful response from upstream, allowing request"
               [("response_headers", FHeaders responseHeaders)] ],
           Ok (api.AuthorizedResponse responseHeaders))
      end.
Proof.
  intros Hreq Hdo. unfold Authorize, Do, extractResponseHeaders, Decode.
  fold (call_logger c authzRequest).
  rewrite Hreq. cbn. rewrite Hdo. cbn.
  destruct (decide (http.StatusCode response ≠ 200)) as [Hne|Heq]; [done|].
  cbn. by destruct (json_Decode (http.Body response)).
Qed.

(** C1: when the outbound call succeeds and the status is not 200, the
    verdict is [UnauthenticatedResponse] with no error, whatever the body
    holds; the call makes one outbound request and one log line, and does not
    read the body, so nothing is decoded. *)
Theorem Authorize_non200_Denied (rng : MapRange) (c : RemoteAuthService)
    (authzRequest : api.AuthorizationRequest)
    (request : http.Request) (response : http.Response) :
  new_request "GET" (AuthUrl c) = Ok request →
  httpClient c (forwardAllowedHeaders rng c request authzRequest) = Ok response →
  http.StatusCode response ≠ 200 →
  outcome (authorize rng c authzRequest) = Ok api.UnauthenticatedResponse
  ∧ (∀ body, EvRead body ∉ trace (authorize rng c authzRequest))
  ∧ trace (authorize rng c authzRequest)
    = [ EvDo (forwardAllowedHeaders rng c request authzRequest);
        EvLog InfoLevel (call_logger c authzRequest)
          "Unsuccessful response from upstream, denying access"
          [("status_code", FInt (http.StatusCode response))] ].
Proof.
  intros Hreq Hdo Hstatus.
  rewrite (Authorize_answered _ _ _ _ _ Hreq Hdo).
  rewrite decide_True by done. cbn.
  split; [done|]. split; [|done].
  intros body Hin. apply list_elem_of_In in Hin. simpl in Hin.
  by destruct Hin as [|[|[]]].
Qed.

(** C2: when the status is 200 the body is read and decoded; a decoding error
    is the error of the call, and no verdict is returned; a decoded body gives
    [AuthorizedResponse] with exactly the headers that the extraction yields
    from the decoded body and the attribute map of the service. *)
Theorem Authorize_200 (rng : MapRange) (c : RemoteAuthService)
    (authzRequest : api.AuthorizationRequest)
    (request : http.Request) (response : http.Response) :
  new_request "GET" (AuthUrl c) = Ok request →
  httpClient c (forwardAllowedHeaders rng c request authzRequest) = Ok response →
  http.StatusCode response = 200 →
  EvRead (http.Body response) ∈ trace (authorize rng c authzRequest)
  ∧ outcome (authorize rng c authzRequest)
    = match json_Decode (http.Body response) with
      | Err err => Err err
      | Ok data =>
          Ok (api.AuthorizedResponse
                (extractHeaders Sprintf_v_float rng data (AttributesToHeadersMap c)))
      end
  ∧ outcome (authorize rng c authzRequest)
    = match outcome (extractResponseHeaders Sprintf_v_float json_Decode rng
                       (http.Body response) (AttributesToHeadersMap c)) with
      | Err err => Err err
      | Ok responseHeaders => Ok (api.AuthorizedResponse responseHeaders)
      end.
Proof.
  intros Hreq Hdo Hstatus.
  rewrite (Authorize_answered _ _ _ _ _ Hreq Hdo).
  rewrite decide_False by (by intros []).
  unfold extractResponseHeaders, Decode. cbn.
  destruct (json_Decode (http.Body response)) as [data|err]; cbn;
    (split; [set_solver|done]).
Qed.

(** Before the status is looked at: a URL that cannot be parsed and a failed
    call are errors of [Authorize], without a verdict. *)
Lemma Authorize_transport_errors (rng : MapRange) (c : RemoteAuthService)
    (authzRequest : api.AuthorizationRequest) :
  (∀ err, new_request "GET" (AuthUrl c) = Err err →
          authorize rng c authzRequest = ([], Err err))
  ∧ (∀ request err,
       new_request "GET" (AuthUrl c) = Ok request →
       httpClient c (forwardAllowedHeaders rng c request authzRequest) = Err err →
       outcome (authorize rng c authzRequest) = Err err).
Proof.
  split.
  - intros err Hreq. unfold Authorize. by rewrite Hreq.
  - intros request err Hreq Hdo. unfold Authorize, Do. rewrite Hreq. cbn.
    by rewrite Hdo.
Qed.

End AuthorizeFacts.

Lemma Authorize_non200_Denied_witness :
  outcome (Authorize example_Sprintf_v_float example_url_Parse_error
             example_json_Decode range_sorted example_service
             example_request_anonymous)
  = Ok api.UnauthenticatedResponse.
Proof.
  apply (Authorize_non200_Denied example_Sprintf_v_float example_url_Parse_error
           example_json_Decode range_sorted example_service
           example_request_anonymous
           (blank_request "GET" "http://auth/check")
           {| http.StatusCode := 403; http.Body := "Forbidden" |});
    vm_compute; [reflexivity | reflexivity | discriminate].
Defined.

Lemma Authorize_200_witness :
  outcome (Authorize example_Sprintf_v_float example_url_Parse_error
             example_json_Decode range_sorted example_service example_request)
  = Ok (api.AuthorizedResponse test_expectations).
Proof.
  pose proof (Authorize_200 example_Sprintf_v_float example_url_Parse_error
                example_json_Decode range_sorted example_service example_request
                (blank_request "GET" "http://auth/check")
                {| http.StatusCode := 200; http.Body := test_body |}
                eq_refl eq_refl eq_refl) as (_ & Hout & _).
  rewrite Hout. vm_compute. reflexivity.
Defined.

(** ** [forwardAllowedHeaders]: the allow-list *)

Section ForwardFacts.

(** A loop that, per entry [(key, x)] of a map, adds at most one value under
    [key]: what is filed under a name afterwards. *)
Lemma Header_Add_loop_lookup {V} (pick : string → V → option string)
    (step : http.Request → string * V → http.Request)
    (l : list (string * V)) (r0 : http.Request) (name : string) :
  (∀ r key x, step r (key, x)
              = match pick key x with
                | Some value => http.Header_Add key value r
                | None => r
                end) →
  NoDup l.*1 →
  http.Header (foldl step r0 l) !! name
  = match (list_to_map l : gmap string V) !! name with
    | Some x =>
        match pick name x with
        | Some value => Some ((http.Header r0 !!! name) ++ [value])
        | None => http.Header r0 !! name
        end
    | None => http.Header r0 !! name
    end.
Proof.
  intros Hstep. revert r0.
  induction l as [|[key x] l IH]; intros r0 Hnodup; [done|].
  rewrite fmap_cons, NoDup_cons in Hnodup. destruct Hnodup as [Hkey Hnodup].
  cbn [foldl]. rewrite (IH _ Hnodup), Hstep. cbn [list_to_map foldr uncurry].
  change (foldr (λ p, <[p.1:=p.2]>) ∅ l) with (list_to_map l : gmap string V).
  cbn [fst snd] in *.
  destruct (decide (key = name)) as [->|Hne].
  - rewrite lookup_insert_eq.
    rewrite (not_elem_of_list_to_map_1 (M := gmap string) l name Hkey).
    destruct (pick name x) as [value|]; [|done].
    unfold http.Header_Add. cbn. by rewrite lookup_insert_eq.
  - rewrite lookup_insert_ne by done.
    assert (Hsame : http.Header
                      match pick key x with
                      | Some value => http.Header_Add key value r0
                      | None => r0
                      end !! name = http.Header r0 !! name).
    { destruct (pick key x); [|done]. unfold http.Header_Add. cbn.
      by rewrite lookup_insert_ne. }
    unfold lookup_total, map_lookup_total. rewrite Hsame. done.
Qed.

Lemma Header_Add_loop_fixed {V} (pick : string → V → option string)
    (step : http.Request → string * V → http.Request)
    (l : list (string * V)) (r0 : http.Request) :
  (∀ r key x, step r (key, x)
              = match pick key x with
                | Some value => http.Header_Add key value r
                | None => r
                end) →
  http.Method (foldl step r0 l) = http.Method r0
  ∧ http.URL (foldl step r0 l) = http.URL r0.
Proof.
  intros Hstep. revert r0. induction l as [|[key x] l IH]; intros r0; [done|].
  cbn [foldl]. destruct (IH (step r0 (key, x))) as [-> ->]. rewrite Hstep.
  by destruct (pick key x).
Qed.

(** A range lists every key once and is the map again. *)
Lemma range_NoDup {V} (rng : MapRange) (m : gmap string V) :
  NoDup (range rng m).*1.
Proof. rewrite (range_perm rng). apply NoDup_fst_map_to_list. Qed.

Lemma range_to_map {V} (rng : MapRange) (m : gmap string V) :
  list_to_map (range rng m) = m.
Proof.
  rewrite <- (list_to_map_to_list m) at 2.
  apply list_to_map_proper; [apply range_NoDup | apply range_perm].
Qed.

Lemma Request_eq (r1 r2 : http.Request) :
  http.Method r1 = http.Method r2 →
  http.URL r1 = http.URL r2 →
  http.Header r1 = http.Header r2 →
  r1 = r2.
Proof. destruct r1, r2; simpl; congruence. Qed.

Lemma elem_of_allowList (fwd : gmap string bool) (name : string) :
  name ∈ allowList fwd ↔ fwd !! name = Some true.
Proof.
  unfold allowList. rewrite elem_of_dom. split.
  - intros [b Hb]. apply map_lookup_filter_Some in Hb as [Hb Htrue].
    simpl in Htrue. by subst.
  - intros Hb. exists true. by apply map_lookup_filter_Some.
Qed.

(** What [forwardAllowedHeaders] leaves under a name. *)
Lemma forwardAllowedHeaders_lookup (rng : MapRange) (c : RemoteAuthService)
    (r0 : http.Request) (authzRequest : api.AuthorizationRequest) (name : string) :
  http.Header (forwardAllowedHeaders rng c r0 authzRequest) !! name
  = match ForwardRequestHeaders c !! name with
    | Some true =>
        match api.GetHeaders authzRequest !! name with
        | Some value => Some ((http.Header r0 !!! name) ++ [value])
        | None => http.Header r0 !! name
        end
    | _ => http.Header r0 !! name
    end.
Proof.
  unfold forwardAllowedHeaders.
  rewrite (Header_Add_loop_lookup
             (λ key (b : bool), if b then api.GetHeaders authzRequest !! key else None)).
  - rewrite range_to_map. by destruct (ForwardRequestHeaders c !! name) as [[]|].
  - by intros r key [].
  - apply range_NoDup.
Qed.


Lemma forwardAllowedHeaders_fixed (rng : MapRange) (c : RemoteAuthService)
    (r0 : http.Request) (authzRequest : api.AuthorizationRequest) :
  http.Method (forwardAllowedHeaders rng c r0 authzRequest) = http.Method r0
  ∧ http.URL (forwardAllowedHeaders rng c r0 authzRequest) = http.URL r0.
Proof.
  apply (Header_Add_loop_fixed
           (λ key (b : bool), if b then api.GetHeaders authzRequest !! key else None)).
  by intros r key [].
Qed.



End ForwardFacts.

(** The map [GetAuthService] builds from the configured list. *)
Lemma forwardHeadersMap_lookup (l : list string) (m0 : gmap string bool)
    (name : string) :
  foldl (λ m v, <[v := true]> m) m0 l !! name
  = if decide (name ∈ l) then Some true else m0 !! name.
Proof.
  revert m0. induction l as [|v l IH]; intros m0; cbn [foldl].
  - rewrite decide_False; [done|]. apply not_elem_of_nil.
  - rewrite IH. destruct (decide (name ∈ l)) as [Hin|Hnin].
    + rewrite decide_True; [done|]. rewrite elem_of_cons. by right.
    + destruct (decide (v = name)) as [->|Hne].
      * rewrite lookup_insert_eq, decide_True; [done|]. rewrite elem_of_cons.
        by left.
      * rewrite lookup_insert_ne by done. rewrite decide_False; [done|].
        rewrite elem_of_cons. by intros [?|?].
Qed.




(** ** [GetAuthService]: the attribute map *)

Section ConfigFacts.

Variable Sprintf_v_float : spec_float → string.
Variable DefaultClient_Do : http.Request → result http.Response.

(** A value that is not a [*Config] is refused. *)
Lemma GetAuthService_NotConfig (typ : string) :
  GetAuthService DefaultClient_Do (NotConfig typ)
  = ([], Err (UnexpectedConfigError typ)).
Proof. done. Qed.

(** C6 (as the code has it): [GetAuthService] accepts every [*Config] and
    takes [ResponseHeaders] as the attribute map as it stands, without
    turning it round: the keys of the configured mapping are looked up in the
    response body as attribute names, and its values are the names of the
    headers emitted. *)
Theorem GetAuthService_ResponseHeaders_as_is (config : Config.Config) :
  ∃ c, outcome (GetAuthService DefaultClient_Do (ConfigPtr config)) = Ok c
       ∧ AttributesToHeadersMap c = Config.ResponseHeaders config
       ∧ ∀ rng data hv,
           hv ∈ extractHeaders Sprintf_v_float rng data (AttributesToHeadersMap c)
           ↔ ∃ attribute raw,
               Config.ResponseHeaders config !! attribute
               = Some (envoycorev2.Key (envoycorev2.Header hv))
               ∧ data !! attribute = Some raw
               ∧ stringifyValue Sprintf_v_float raw
                 = Some (envoycorev2.Value (envoycorev2.Header hv)).
Proof.
  eexists. split; [reflexivity|]. split; [reflexivity|].
  intros rng data hv. cbn. apply elem_of_extractHeaders.
Qed.

(** The inverting loop of the earlier revision, from any map it starts
    with. *)
Lemma inverted_acc (l : list (string * string)) (m0 : gmap string string)
    (attribute : string) :
  (∀ headerKey,
     foldl (λ m '(headerKey, attribute), <[attribute := headerKey]> m) m0 l
       !! attribute = Some headerKey →
     (headerKey, attribute) ∈ l ∨ m0 !! attribute = Some headerKey)
  ∧ ((is_Some (m0 !! attribute) ∨ ∃ headerKey, (headerKey, attribute) ∈ l) →
     is_Some (foldl (λ m '(headerKey, attribute), <[attribute := headerKey]> m)
                m0 l !! attribute)).
Proof.
  revert m0. induction l as [|[h a] l IH]; intros m0; cbn [foldl].
  - split; [by right|]. intros [?|[? Hin]]; [done|]. by apply elem_of_nil in Hin.
  - destruct (IH (<[a := h]> m0)) as [IH1 IH2]. split.
    + intros headerKey Hlook. destruct (IH1 _ Hlook) as [Hin|Hins].
      * left. rewrite elem_of_cons. by right.
      * destruct (decide (a = attribute)) as [->|Hne].
        -- rewrite lookup_insert_eq in Hins. injection Hins as ->.
           left. rewrite elem_of_cons. by left.
        -- rewrite lookup_insert_ne in Hins by done. by right.
    + intros Hsome. apply IH2.
      destruct (decide (a = attribute)) as [->|Hne].
      * left. by rewrite lookup_insert_eq.
      * rewrite lookup_insert_ne by done.
        destruct Hsome as [?|[headerKey Hin]]; [by left|].
        right. exists headerKey. rewrite elem_of_cons in Hin.
        destruct Hin as [[= -> ->]|Hin]; [done|done].
Qed.

(** X18: the earlier revision did turn the mapping round: every entry of its
    attribute map is a configured entry reversed, and every configured
    attribute is a key of it, mapped to one of the header names configured
    for it. *)
Lemma Earlier_GetAuthService_inverts (rng : MapRange)
    (config : Earlier.Config.Config) :
  ∃ c, outcome (Earlier.GetAuthService DefaultClient_Do rng (Earlier.ConfigPtr config))
       = Ok c
       ∧ (∀ attribute headerKey,
            Earlier.AttributesToHeadersMap c !! attribute = Some headerKey →
            Earlier.Config.ResponseHeaders config !! headerKey = Some attribute)
       ∧ (∀ headerKey attribute,
            Earlier.Config.ResponseHeaders config !! headerKey = Some attribute →
            ∃ headerKey',
              Earlier.AttributesToHeadersMap c !! attribute = Some headerKey'
              ∧ Earlier.Config.ResponseHeaders config !! headerKey' = Some attribute).
Proof.
  eexists. split; [reflexivity|]. cbn.
  assert (Hback : ∀ attribute headerKey,
            foldl (λ m '(headerKey, attribute), <[attribute := headerKey]> m)
              (∅ : gmap string string)
              (range rng (Earlier.Config.ResponseHeaders config)) !! attribute
            = Some headerKey →
            Earlier.Config.ResponseHeaders config !! headerKey = Some attribute).
  { intros attribute headerKey Hlook.
    destruct (inverted_acc (range rng (Earlier.Config.ResponseHeaders config))
                ∅ attribute) as [H1 _].
    destruct (H1 _ Hlook) as [Hin|Hempty]; [|by rewrite lookup_empty in Hempty].
    by rewrite (range_perm rng), elem_of_map_to_list in Hin. }
  split; [exact Hback|].
  intros headerKey attribute Hcfg.
  destruct (inverted_acc (range rng (Earlier.Config.ResponseHeaders config))
              ∅ attribute) as [_ H2].
  destruct H2 as [headerKey' Hlook].
  { right. exists headerKey. by rewrite (range_perm rng), elem_of_map_to_list. }
  exists headerKey'. split; [exact Hlook|]. by apply Hback.
Qed.

End ConfigFacts.

(** C6 (as stated) fails: from a configuration that maps the header name
    [x-auth-subject-id] to the attribute [userid], the service gets a map with
    no entry for the attribute [userid]; it looks for an attribute called
    [x-auth-subject-id] instead, and the test body yields no header. *)
Lemma GetAuthService_does_not_invert :
  ¬ (∀ client config c,
       outcome (GetAuthService client (ConfigPtr config)) = Ok c →
       ∀ headerName attribute,
         Config.ResponseHeaders config !! headerName = Some attribute →
         ∃ h, AttributesToHeadersMap c !! attribute = Some h
              ∧ Config.ResponseHeaders config !! h = Some attribute)
  ∧ ∃ c, outcome (GetAuthService example_Do (ConfigPtr example_config)) = Ok c
         ∧ Config.ResponseHeaders example_config !! "x-auth-subject-id"
           = Some "userid"
         ∧ AttributesToHeadersMap c !! "userid" = None
         ∧ AttributesToHeadersMap c !! "x-auth-subject-id" = Some "userid"
         ∧ extractHeaders example_Sprintf_v_float range_sorted test_data
             (AttributesToHeadersMap c) = [].
Proof.
  split.
  - intros Hclaim.
    destruct (Hclaim example_Do example_config _ eq_refl
                "x-auth-subject-id" "userid" eq_refl) as (h & Hh & _).
    vm_compute in Hh. discriminate Hh.
  - eexists. split; [reflexivity|]. by vm_compute.
Qed.

(** ** [Authorize] and the request id *)

Section RequestIdFacts.

Variable Sprintf_v_float : spec_float → string.
Variable url_Parse_error : string → option error.
Variable json_Decode : string → result (gmap string value).

#[local] Abbreviation authorize :=
  (Authorize Sprintf_v_float url_Parse_error json_Decode).

(** The outbound request depends on the inbound one through the allow-listed
    headers only. *)
Lemma forwardAllowedHeaders_agree (rng : MapRange) (c1 c2 : RemoteAuthService)
    (r0 : http.Request) (a1 a2 : api.AuthorizationRequest) :
  ForwardRequestHeaders c1 = ForwardRequestHeaders c2 →
  (∀ name, name ∈ allowList (ForwardRequestHeaders c1) →
           api.GetHeaders a1 !! name = api.GetHeaders a2 !! name) →
  forwardAllowedHeaders rng c1 r0 a1 = forwardAllowedHeaders rng c2 r0 a2.
Proof.
  intros Hfwd Hagree.
  destruct (forwardAllowedHeaders_fixed rng c1 r0 a1) as [Hm1 Hu1].
  destruct (forwardAllowedHeaders_fixed rng c2 r0 a2) as [Hm2 Hu2].
  apply Request_eq; [congruence | congruence |].
  apply map_eq. intros name. rewrite !forwardAllowedHeaders_lookup, <- Hfwd.
  destruct (ForwardRequestHeaders c1 !! name) as [[]|] eqn:Hname; [|done|done].
  by rewrite (Hagree name) by (by apply elem_of_allowList).
Qed.

(** The verdict depends on the service through everything but
    [RequestIdHeader], and on the inbound request through the allow-listed
    headers. *)
Lemma Authorize_outcome_agree (rng : MapRange) (c1 c2 : RemoteAuthService)
    (a1 a2 : api.AuthorizationRequest) :
  same_but_RequestIdHeader c1 c2 →
  (∀ name, name ∈ allowList (ForwardRequestHeaders c1) →
           api.GetHeaders a1 !! name = api.GetHeaders a2 !! name) →
  outcome (authorize rng c1 a1) = outcome (authorize rng c2 a2).
Proof.
  intros (Hclient & Hurl & Hfwd & Hattr) Hagree.
  destruct (NewRequestWithContext url_Parse_error "GET" (AuthUrl c1))
    as [request|err] eqn:Hreq1.
  - assert (Hreq2 : NewRequestWithContext url_Parse_error "GET" (AuthUrl c2)
                    = Ok request) by (by rewrite <- Hurl).
    pose proof (forwardAllowedHeaders_agree rng c1 c2 request a1 a2 Hfwd Hagree)
      as Hout.
    destruct (httpClient c1 (forwardAllowedHeaders rng c1 request a1))
      as [response|err] eqn:Hdo1.
    + assert (Hdo2 : httpClient c2 (forwardAllowedHeaders rng c2 request a2)
                     = Ok response) by (by rewrite <- Hclient, <- Hout).
      rewrite (Authorize_answered _ _ _ _ _ _ _ _ Hreq1 Hdo1).
      rewrite (Authorize_answered _ _ _ _ _ _ _ _ Hreq2 Hdo2).
      destruct (decide (http.StatusCode response ≠ 200)); [done|].
      rewrite Hattr. by destruct (json_Decode (http.Body response)).
    + assert (Hdo2 : httpClient c2 (forwardAllowedHeaders rng c2 request a2)
                     = Err err) by (by rewrite <- Hclient, <- Hout).
      rewrite (proj2 (Authorize_transport_errors Sprintf_v_float url_Parse_error
                        json_Decode rng c1 a1) request err Hreq1 Hdo1).
      by rewrite (proj2 (Authorize_transport_errors Sprintf_v_float
                           url_Parse_error json_Decode rng c2 a2)
                    request err Hreq2 Hdo2).
  - assert (Hreq2 : NewRequestWithContext url_Parse_error "GET" (AuthUrl c2)
                    = Err err) by (by rewrite <- Hurl).
    rewrite (proj1 (Authorize_transport_errors Sprintf_v_float url_Parse_error
                      json_Decode rng c1 a1) err Hreq1).
    by rewrite (proj1 (Authorize_transport_errors Sprintf_v_float url_Parse_error
                         json_Decode rng c2 a2) err Hreq2).
Qed.

(** C9 (as the code has it): two runs against the same remote whose services
    differ at most in [RequestIdHeader], and whose inbound requests differ at
    most in the headers those fields name, end in the same verdict or error,
    provided a correlation header that is also on the allow-list has the same
    presence and value in both inbound requests.  The request id itself only
    reaches the logger. *)
Theorem Authorize_RequestIdHeader_irrelevant (rng : MapRange)
    (c1 c2 : RemoteAuthService) (a1 a2 : api.AuthorizationRequest) :
  same_but_RequestIdHeader c1 c2 →
  (∀ name, name ≠ RequestIdHeader c1 → name ≠ RequestIdHeader c2 →
           api.GetHeaders a1 !! name = api.GetHeaders a2 !! name) →
  (∀ name, name = RequestIdHeader c1 ∨ name = RequestIdHeader c2 →
           name ∈ allowList (ForwardRequestHeaders c1) →
           api.GetHeaders a1 !! name = api.GetHeaders a2 !! name) →
  outcome (authorize rng c1 a1) = outcome (authorize rng c2 a2).
Proof.
  intros Hsame Hrest Hid. apply Authorize_outcome_agree; [done|].
  intros name Hallow.
  destruct (decide (name = RequestIdHeader c1)) as [H1|H1]; [by apply Hid; auto|].
  destruct (decide (name = RequestIdHeader c2)) as [H2|H2]; [by apply Hid; auto|].
  by apply Hrest.
Qed.

End RequestIdFacts.

(** C9 (as stated) fails when the correlation header is itself forwarded:
    the two inbound requests below differ only in the presence of
    [x-request-id], the service is the same, and the remote, which sees the
    header, allows one and denies the other. *)
Lemma Authorize_forwarded_request_id_decides :
  RequestIdHeader example_service_traced = "x-request-id"
  ∧ (∀ name, name ≠ "x-request-id" →
             api.GetHeaders example_request_only_id !! name
             = api.GetHeaders example_request_empty !! name)
  ∧ outcome (Authorize example_Sprintf_v_float example_url_Parse_error
               example_json_Decode range_sorted example_service_traced
               example_request_only_id)
    = Ok (api.AuthorizedResponse [])
  ∧ outcome (Authorize example_Sprintf_v_float example_url_Parse_error
               example_json_Decode range_sorted example_service_traced
               example_request_empty)
    = Ok api.UnauthenticatedResponse.
Proof.
  split; [reflexivity|]. split; [|split; vm_compute; reflexivity].
  intros name Hne. cbn. by rewrite lookup_singleton_ne, lookup_empty.
Qed.

Lemma Authorize_RequestIdHeader_irrelevant_witness :
  outcome (Authorize example_Sprintf_v_float example_url_Parse_error
             example_json_Decode range_sorted example_service example_request)
  = outcome (Authorize example_Sprintf_v_float example_url_Parse_error
               example_json_Decode range_sorted example_service_no_id
               example_request_no_id).
Proof.
  apply (Authorize_RequestIdHeader_irrelevant example_Sprintf_v_float
           example_url_Parse_error example_json_Decode range_sorted
           example_service example_service_no_id
           example_request example_request_no_id).
  - repeat split; reflexivity.
  - intros name Hne _. cbn in Hne. cbn [example_request_no_id api.GetHeaders].
    by rewrite lookup_delete_ne.
  - intros name [->| ->] Hallow; apply elem_of_allowList in Hallow;
      vm_compute in Hallow; discriminate Hallow.
Defined.

(** ** The earlier revision decides in the same way *)

Section EarlierFacts.

Variable Sprintf_v_float : spec_float → string.
Variable url_Parse_error : string → option error.
Variable json_Decode : string → result (gmap string value).

Lemma Earlier_Authorize_answered (rng : MapRange) (c : Earlier.RemoteAuthService)
    (authzRequest : api.AuthorizationRequest)
    (request : http.Request) (response : http.Response) :
  NewRequestWithContext url_Parse_error "GET" (Earlier.AuthUrl c) = Ok request →
  Earlier.httpClient c (Earlier.forwardAllowedHeaders rng c request authzRequest)
  = Ok response →
  (http.StatusCode response ≠ 200 →
   outcome (Earlier.Authorize Sprintf_v_float url_Parse_error json_Decode
              rng c authzRequest) = Ok api.UnauthenticatedResponse
   ∧ ∀ body, EvRead body ∉ trace (Earlier.Authorize Sprintf_v_float
                                   url_Parse_error json_Decode rng c authzRequest))
  ∧ (http.StatusCode response = 200 →
     outcome (Earlier.Authorize Sprintf_v_float url_Parse_error json_Decode
                rng c authzRequest)
     = match json_Decode (http.Body response) with
       | Err err => Err err
       | Ok data =>
           Ok (api.AuthorizedResponse
                 (extractHeaders Sprintf_v_float rng data
                    (Earlier.AttributesToHeadersMap c)))
       end).
Proof.
  intros Hreq Hdo.
  unfold Earlier.Authorize, Earlier.Do, Earlier.extractResponseHeaders, Decode.
  rewrite Hreq. cbn. rewrite Hdo. cbn. split.
  - intros Hstatus. rewrite decide_True by done. cbn. split; [done|].
    intros body Hin. apply list_elem_of_In in Hin. simpl in Hin.
    by destruct Hin as [|[|[]]].
  - intros Hstatus. rewrite decide_False by (by intros []). cbn.
    by destruct (json_Decode (http.Body response)).
Qed.

End EarlierFacts.

(** ** The scenarios, run *)

(** A 200 whose body is not JSON: the decoder's error, and no verdict. *)
Lemma Authorize_garbled_body :
  Authorize example_Sprintf_v_float example_url_Parse_error example_json_Decode
    range_sorted
    {| httpClient := example_Do_garbled;
       AuthUrl := "http://auth/check";
       ForwardRequestHeaders := ∅;
       AttributesToHeadersMap := test_attr;
       RequestIdHeader := "" |}
    example_request
  = ([ EvDo (blank_request "GET" "http://auth/check");
       EvRead "<html>";
       EvLog ErrorLevel logger
         "Unexpected error while extracting response headers"
         [zap_Error "invalid character"] ],
     Err "invalid character").
Proof. vm_compute. reflexivity. Qed.

(** The allow-list is matched as spelled: [Authorization] inbound is not the
    allow-listed [authorization]. *)
Lemma forwardAllowedHeaders_case_sensitive :
  forwardAllowedHeaders range_sorted example_service
    (blank_request "GET" "http://auth/check")
    {| api.GetHeaders := {[ "Authorization" := "Bearer t" ]} |}
  = blank_request "GET" "http://auth/check".
Proof. vm_compute. reflexivity. Qed.

(** The order of the range shows in the order of the headers, not in which
    headers there are. *)
Lemma extractHeaders_order :
  extractHeaders example_Sprintf_v_float range_sorted test_data test_attr
  = test_expectations
  ∧ extractHeaders example_Sprintf_v_float range_reversed test_data test_attr
    = reverse test_expectations.
Proof. split; vm_compute; reflexivity. Qed.

(** The test body is the text the Go test has. *)
Lemma test_body_length : String.length test_body = 65%nat.
Proof. reflexivity. Qed.

(** * Further properties *)

(** ** [stringifyValue] on arrays *)

Lemma append_assoc (s1 s2 s3 : string) : (s1 +:+ s2) +:+ s3 = s1 +:+ s2 +:+ s3.
Proof.
  induction s1 as [|a s1 IH]; [done|].
  change (String a ((s1 +:+ s2) +:+ s3) = String a (s1 +:+ s2 +:+ s3)).
  by rewrite IH.
Qed.

Lemma Join_cons (s : string) (l : list string) (sep : string) :
  l ≠ [] → Join (s :: l) sep = s +:+ sep +:+ Join l sep.
Proof. by destruct l. Qed.

(** Joining two non-empty lists one after the other. *)
Lemma Join_app (l1 l2 : list string) (sep : string) :
  l1 ≠ [] → l2 ≠ [] →
  Join (l1 ++ l2) sep = Join l1 sep +:+ sep +:+ Join l2 sep.
Proof.
  intros H1 H2. induction l1 as [|s l1 IH]; [done|].
  destruct l1 as [|s' l1].
  - cbn [app]. by rewrite Join_cons.
  - rewrite <- app_comm_cons, Join_cons by done.
    rewrite IH by done. rewrite (Join_cons s (s' :: l1)) by done.
    by rewrite !append_assoc.
Qed.

Section StringifyMore.

Variable Sprintf_v_float : spec_float → string.

#[local] Abbreviation stringify := (stringifyValue Sprintf_v_float).

(** X2: an array of strings has the same string as the one string that is
    their comma-join, so the elements cannot be told from the text of a
    single string with commas in it. *)
Theorem stringifyValue_strings_join (ss : list string) :
  stringify (VSlice (VString <$> ss)) = Some (Join ss ",")
  ∧ stringify (VSlice (VString <$> ss)) = stringify (VString (Join ss ",")).
Proof.
  assert (Homap : omap stringify (VString <$> ss) = ss).
  { induction ss as [|s ss IH]; [done|].
    rewrite fmap_cons, omap_cons_case. cbn [stringifyValue]. by rewrite IH. }
  rewrite stringifyValue_VSlice, Homap. done.
Qed.

Lemma omap_stringify_concat (ls : list (list value)) :
  omap stringify (concat ls)
  = concat ((λ l : list value, omap stringify l) <$> ls).
Proof.
  induction ls as [|l ls IH]; [done|].
  cbn [concat]. by rewrite omap_app, fmap_cons, IH.
Qed.

Lemma Join_concat (Ls : list (list string)) (sep : string) :
  Forall (λ L, L ≠ []) Ls →
  Join ((λ L, Join L sep) <$> Ls) sep = Join (concat Ls) sep.
Proof.
  induction 1 as [|L Ls HL HLs IH]; [done|].
  destruct Ls as [|L' Ls].
  - cbn. by rewrite app_nil_r.
  - rewrite (fmap_cons _ L (L' :: Ls)).
    rewrite Join_cons by (by rewrite fmap_cons). rewrite IH.
    cbn [concat]. rewrite (Join_app L); [done|done|].
    inversion HLs as [|? ? HL' _]; subst. by destruct L'.
Qed.

(** X3: an array of arrays is flattened: when every inner array has at least
    one element with a string, the outer array has the string of the
    concatenation of the inner ones. *)
Theorem stringifyValue_nested_flatten (ls : list (list value)) :
  Forall (λ l, omap stringify l ≠ []) ls →
  stringify (VSlice (VSlice <$> ls)) = stringify (VSlice (concat ls)).
Proof.
  intros Hne. rewrite !stringifyValue_VSlice, omap_stringify_concat.
  rewrite <- Join_concat by (by apply Forall_fmap).
  f_equal. f_equal. clear Hne. induction ls as [|l ls IH]; [done|].
  rewrite !fmap_cons, omap_cons_case, stringifyValue_VSlice. by rewrite IH.
Qed.

(** X4: an array none of whose elements has a string has the empty string,
    like the empty array. *)
Theorem stringifyValue_array_all_unsupported (l : list value) :
  Forall (λ elem, stringify elem = None) l →
  stringify (VSlice l) = Some "" ∧ stringify (VArray l) = Some "".
Proof.
  intros Hnone. rewrite stringifyValue_VSlice, stringifyValue_VArray.
  assert (omap stringify l = []) as ->; [|done].
  induction Hnone as [|x l Hx _ IH]; [done|].
  by rewrite omap_cons_case, Hx.
Qed.

End StringifyMore.

Lemma stringifyValue_nested_flatten_witness :
  stringifyValue example_Sprintf_v_float
    (VSlice (VSlice <$> [[VString "a"; VNil; VString "b"]; [VBool true]]))
  = Some "a,b,true".
Proof.
  rewrite (stringifyValue_nested_flatten example_Sprintf_v_float
             [[VString "a"; VNil; VString "b"]; [VBool true]]).
  - vm_compute. reflexivity.
  - repeat constructor; vm_compute; discriminate.
Defined.

Lemma stringifyValue_array_all_unsupported_witness :
  stringifyValue example_Sprintf_v_float (VSlice [VNil; VMap ∅; VInt TInt16 7])
  = Some "".
Proof.
  apply (stringifyValue_array_all_unsupported example_Sprintf_v_float
           [VNil; VMap ∅; VInt TInt16 7]).
  repeat constructor.
Defined.

(** ** [extractHeaders]: bounds, and what it does not read *)

Lemma length_omap_le {A B} (f : A → option B) (l : list A) :
  (length (omap f l) ≤ length l)%nat.
Proof.
  induction l as [|x l IH]; [done|]. rewrite omap_cons_case.
  destruct (f x); simpl; lia.
Qed.

Lemma omap_ext_in {A B} (f g : A → option B) (l : list A) :
  (∀ x, x ∈ l → f x = g x) → omap f l = omap g l.
Proof.
  intros Hfg. induction l as [|x l IH]; [done|].
  rewrite !omap_cons_case, (Hfg x), IH; [done| |].
  - intros y Hy. apply Hfg. rewrite elem_of_cons. by right.
  - rewrite elem_of_cons. by left.
Qed.

Lemma range_empty {V} (rng : MapRange) : range rng (∅ : gmap string V) = [].
Proof.
  apply Permutation_nil_r. rewrite (range_perm rng). by rewrite map_to_list_empty.
Qed.

Section ExtractMore.

Variable Sprintf_v_float : spec_float → string.

#[local] Abbreviation extract := (extractHeaders Sprintf_v_float).

(** X5: a body without attributes (an empty object, or the nil map that a
    JSON null leaves) yields no header, and neither does an empty mapping;
    there are never more headers than mapping entries. *)
Theorem extractHeaders_bounds (rng : MapRange) (data : gmap string value)
    (attrs : gmap string string) :
  extract rng ∅ attrs = []
  ∧ extract rng data ∅ = []
  ∧ (length (extract rng data attrs) ≤ size attrs)%nat.
Proof.
  rewrite !extractHeaders_omap. split; [|split].
  - induction (range rng attrs) as [|[a h] l IH]; [done|].
    rewrite omap_cons_case. unfold emitted at 1. cbn [fst].
    by rewrite lookup_empty.
  - by rewrite range_empty.
  - etrans; [apply length_omap_le|].
    by rewrite (range_perm rng), length_map_to_list.
Qed.

(** X6: the extraction reads the body at the mapped attributes only: two
    bodies that agree there give the same headers, whatever else they
    hold. *)
Theorem extractHeaders_only_mapped (rng : MapRange) (data1 data2 : gmap string value)
    (attrs : gmap string string) :
  (∀ attribute, is_Some (attrs !! attribute) →
                data1 !! attribute = data2 !! attribute) →
  extract rng data1 attrs = extract rng data2 attrs.
Proof.
  intros Hagree. rewrite !extractHeaders_omap. apply omap_ext_in.
  intros [attribute hdr] Hin.
  rewrite (range_perm rng), elem_of_map_to_list in Hin.
  unfold emitted. cbn [fst snd]. by rewrite (Hagree attribute).
Qed.

(** Every order of the four mapping entries against every order of the
    three expectations, by running the checks. *)
Lemma test_checks_all_orders :
  Forall (λ attr_order,
            Forall (λ expectations_order,
                      test_checks expectations_order
                        (omap (emitted Sprintf_v_float test_data) attr_order) = [])
                   (permutations (map_to_list expectations)))
         (permutations (map_to_list test_attr)).
Proof. apply (bool_decide_unpack _). vm_compute. exact I. Qed.

(** X7: the test of the extraction reports no failure, whatever order the
    runtime ranges the mapping and the expectations in. *)
Theorem TestExtractHeaders_passes (rng : MapRange) :
  TestExtractHeaders Sprintf_v_float rng = [].
Proof.
  unfold TestExtractHeaders. rewrite extractHeaders_omap.
  pose proof (symmetry (range_perm rng _ test_attr)) as Hattr.
  pose proof (symmetry (range_perm rng _ expectations)) as Hexp.
  apply permutations_Permutation in Hattr, Hexp.
  pose proof test_checks_all_orders as Hall.
  rewrite Forall_forall in Hall. specialize (Hall _ Hattr).
  rewrite Forall_forall in Hall. exact (Hall _ Hexp).
Qed.

End ExtractMore.

Lemma extractHeaders_only_mapped_witness :
  extractHeaders example_Sprintf_v_float range_sorted
    (<["password" := VString "hunter2"]> test_data) test_attr
  = extractHeaders example_Sprintf_v_float range_sorted test_data test_attr.
Proof.
  apply (extractHeaders_only_mapped example_Sprintf_v_float range_sorted
           (<["password" := VString "hunter2"]> test_data) test_data test_attr).
  intros attribute Hmapped. apply lookup_insert_ne. intros <-.
  vm_compute in Hmapped. by destruct Hmapped as [? [=]].
Defined.

(** ** [forwardAllowedHeaders]: what it keeps *)



(** X10: when none of the inbound names is on the allow-list, however close
    in spelling, the request goes out as it was built. *)
Theorem forwardAllowedHeaders_none_present (rng : MapRange) (c : RemoteAuthService)
    (r0 : http.Request) (authzRequest : api.AuthorizationRequest) :
  dom (api.GetHeaders authzRequest) ## allowList (ForwardRequestHeaders c) →
  forwardAllowedHeaders rng c r0 authzRequest = r0.
Proof.
  intros Hdisjoint.
  destruct (forwardAllowedHeaders_fixed rng c r0 authzRequest) as [Hm Hu].
  apply Request_eq; [done | done |].
  apply map_eq. intros name. rewrite forwardAllowedHeaders_lookup.
  destruct (ForwardRequestHeaders c !! name) as [[]|] eqn:Hallow; [|done|done].
  destruct (api.GetHeaders authzRequest !! name) as [value|] eqn:Hin; [|done].
  exfalso. apply (Hdisjoint name).
  - apply elem_of_dom. by exists value.
  - by apply elem_of_allowList.
Qed.


Lemma forwardAllowedHeaders_none_present_witness :
  forwardAllowedHeaders range_sorted example_service
    (blank_request "GET" "http://auth/check") example_request_capitalised
  = blank_request "GET" "http://auth/check".
Proof.
  apply (forwardAllowedHeaders_none_present range_sorted example_service
           (blank_request "GET" "http://auth/check") example_request_capitalised).
  apply (bool_decide_unpack _). vm_compute. exact I.
Defined.

(** ** [Authorize]: the whole run *)

Section AuthorizeMore.

Variable Sprintf_v_float : spec_float → string.
Variable url_Parse_error : string → option error.
Variable json_Decode : string → result (gmap string value).

#[local] Abbreviation authorize :=
  (Authorize Sprintf_v_float url_Parse_error json_Decode).

(** Every way a call can go, with its trace. *)
Lemma Authorize_cases (rng : MapRange) (c : RemoteAuthService)
    (authzRequest : api.AuthorizationRequest) :
  authorize rng c authzRequest
  = match url_Parse_error (AuthUrl c) with
    | Some err => ([], Err err)
    | None =>
        let request :=
          forwardAllowedHeaders rng c (blank_request "GET" (AuthUrl c))
            authzRequest in
        match httpClient c request with
        | Err err =>
            ([ EvDo request;
               EvLog ErrorLevel (call_logger c authzRequest)
                 "Unexpected error from upstream" [zap_Error err] ],
             Err err)
        | Ok response =>
            if decide (http.StatusCode response ≠ 200) then
              ([ EvDo request;
                 EvLog InfoLevel (call_logger c authzRequest)
                   "Unsuccessful response from upstream, denying access"
                   [("status_code", FInt (http.StatusCode response))] ],
               Ok api.UnauthenticatedResponse)
            else
              match json_Decode (http.Body response) with
              | Err err =>
                  ([ EvDo request;
                     EvRead (http.Body response);
                     EvLog ErrorLevel (call_logger c authzRequest)
                       "Unexpected error while extracting response headers"
                       [zap_Error err] ],
                   Err err)
              | Ok data =>
                  let responseHeaders :=
                    extractHeaders Sprintf_v_float rng data
                      (AttributesToHeadersMap c) in
                  ([ EvDo request;
                     EvRead (http.Body response);
                     EvLog InfoLevel logger
                       "Successful response from upstream, allowing request"
                       [("response_headers", FHeaders responseHeaders)] ],
                   Ok (api.AuthorizedResponse responseHeaders))
              end
        end
    end.
Proof.
  unfold Authorize, Do, extractResponseHeaders, Decode, NewRequestWithContext.
  fold (call_logger c authzRequest).
  destruct (url_Parse_error (AuthUrl c)) as [err|]; [done|]. cbn.
  fold (blank_request "GET" (AuthUrl c)).
  destruct (httpClient c _) as [response|err]; [|done]. cbn.
  destruct (decide (http.StatusCode response ≠ 200)); [done|]. cbn.
  by destruct (json_Decode (http.Body response)).
Qed.

(** X11: inbound headers that are neither on the allow-list nor the
    configured request-id header have no part in a call: two inbound requests
    that agree on the allow-listed names and on the request-id header give the
    same trace and the same result. *)
Theorem Authorize_ignores_other_headers (rng : MapRange) (c : RemoteAuthService)
    (a1 a2 : api.AuthorizationRequest) :
  (∀ name, name ∈ allowList (ForwardRequestHeaders c) →
           api.GetHeaders a1 !! name = api.GetHeaders a2 !! name) →
  (RequestIdHeader c ≠ "" →
   api.GetHeaders a1 !! RequestIdHeader c = api.GetHeaders a2 !! RequestIdHeader c) →
  authorize rng c a1 = authorize rng c a2.
Proof.
  intros Hallow Hid. rewrite !Authorize_cases.
  assert (call_logger c a1 = call_logger c a2) as ->.
  { unfold call_logger, extractRequestId.
    destruct (decide (RequestIdHeader c = "")); [done|]. by rewrite Hid. }
  by rewrite (forwardAllowedHeaders_agree rng c c _ a1 a2 eq_refl Hallow).
Qed.

(** X12: a call makes no outbound request when the URL is refused, and
    exactly one otherwise, whatever the remote answers: a GET to the
    configured URL, carrying the forwarded headers. *)
Theorem Authorize_one_outbound_call (rng : MapRange) (c : RemoteAuthService)
    (authzRequest : api.AuthorizationRequest) :
  match url_Parse_error (AuthUrl c) with
  | Some err => authorize rng c authzRequest = ([], Err err)
  | None =>
      ∃ request,
        outbound_calls (trace (authorize rng c authzRequest)) = [request]
        ∧ http.Method request = "GET"
        ∧ http.URL request = AuthUrl c
        ∧ http.Header request
          = http.Header (forwardAllowedHeaders rng c
                           (blank_request "GET" (AuthUrl c)) authzRequest)
  end.
Proof.
  rewrite Authorize_cases.
  destruct (url_Parse_error (AuthUrl c)) as [err|]; [done|]. cbn zeta.
  destruct (forwardAllowedHeaders_fixed rng c (blank_request "GET" (AuthUrl c))
              authzRequest) as [Hm Hu].
  eexists. split; [|split; [exact Hm|split; [exact Hu|reflexivity]]].
  destruct (httpClient c _) as [response|err]; [|done].
  destruct (decide (http.StatusCode response ≠ 200)); [done|].
  by destruct (json_Decode (http.Body response)).
Qed.

(** X13: a call that got as far as a request writes one log line: at error
    level exactly when it returns an error, with the request id in its
    context except on the allowing path, where the line is written by a
    logger without it.  A refused URL is returned without a line. *)
Theorem Authorize_log_line (rng : MapRange) (c : RemoteAuthService)
    (authzRequest : api.AuthorizationRequest) :
  let run := authorize rng c authzRequest in
  match url_Parse_error (AuthUrl c) with
  | Some err => log_levels (trace run) = [] ∧ outcome run = Err err
  | None =>
      log_levels (trace run)
      = [match outcome run with Err _ => ErrorLevel | Ok _ => InfoLevel end]
      ∧ log_contexts (trace run)
        = [match outcome run with
           | Ok (api.AuthorizedResponse _) => logger
           | _ => call_logger c authzRequest
           end]
  end.
Proof.
  intros run. unfold run. rewrite Authorize_cases.
  destruct (url_Parse_error (AuthUrl c)) as [err|]; [done|]. cbn zeta.
  destruct (httpClient c _) as [response|err]; [|done].
  destruct (decide (http.StatusCode response ≠ 200)); [done|].
  by destruct (json_Decode (http.Body response)).
Qed.

(** X14: the configured request-id header shows in the context of the log
    lines and nowhere else: two services that differ in it only, given the
    same inbound request, make the same outbound call, read the same, log the
    same messages and fields, and return the same. *)
Theorem Authorize_RequestIdHeader_only_logged (rng : MapRange)
    (c1 c2 : RemoteAuthService) (authzRequest : api.AuthorizationRequest) :
  same_but_RequestIdHeader c1 c2 →
  erase_context <$> trace (authorize rng c1 authzRequest)
  = erase_context <$> trace (authorize rng c2 authzRequest)
  ∧ outcome (authorize rng c1 authzRequest) = outcome (authorize rng c2 authzRequest).
Proof.
  intros (Hclient & Hurl & Hfwd & Hattr). rewrite !Authorize_cases.
  rewrite <- Hurl, <- Hclient, <- Hattr.
  rewrite <- (forwardAllowedHeaders_agree rng c1 c2 _ authzRequest authzRequest
                Hfwd (λ _ _, eq_refl)).
  destruct (url_Parse_error (AuthUrl c1)) as [err|]; [done|]. cbn zeta.
  destruct (httpClient c1 _) as [response|err]; [|done].
  destruct (decide (http.StatusCode response ≠ 200)); [done|].
  by destruct (json_Decode (http.Body response)).
Qed.


End AuthorizeMore.

Lemma Authorize_ignores_other_headers_witness :
  Authorize example_Sprintf_v_float example_url_Parse_error example_json_Decode
    range_sorted example_service example_request_more
  = Authorize example_Sprintf_v_float example_url_Parse_error example_json_Decode
      range_sorted example_service example_request.
Proof.
  apply (Authorize_ignores_other_headers example_Sprintf_v_float
           example_url_Parse_error example_json_Decode range_sorted
           example_service example_request_more example_request).
  - intros name Hallow. apply lookup_insert_ne. intros <-.
    apply elem_of_allowList in Hallow. vm_compute in Hallow. discriminate Hallow.
  - intros _. vm_compute. reflexivity.
Defined.

Lemma Authorize_RequestIdHeader_only_logged_witness :
  erase_context <$>
    trace (Authorize example_Sprintf_v_float example_url_Parse_error
             example_json_Decode range_sorted example_service
             example_request_anonymous)
  = erase_context <$>
      trace (Authorize example_Sprintf_v_float example_url_Parse_error
               example_json_Decode range_sorted example_service_no_id
               example_request_anonymous).
Proof.
  apply (Authorize_RequestIdHeader_only_logged example_Sprintf_v_float
           example_url_Parse_error example_json_Decode range_sorted
           example_service example_service_no_id example_request_anonymous).
  repeat split; reflexivity.
Defined.

(** ** [GetAuthService] and [NewConfigInstance] *)

Section ConfigMore.

Variable Sprintf_v_float : spec_float → string.
Variable DefaultClient_Do : http.Request → result http.Response.

(** X16: the service takes the URL, the request-id header and the default
    client as configured, and its forward map holds exactly the configured
    names, each with [true]; so two configurations whose lists name the same
    headers, in any order and with any repetitions, give the same service. *)
Theorem GetAuthService_forward_map (config1 config2 : Config.Config) :
  (∃ c, outcome (GetAuthService DefaultClient_Do (ConfigPtr config1)) = Ok c
        ∧ httpClient c = DefaultClient_Do
        ∧ AuthUrl c = Config.AuthUrl config1
        ∧ RequestIdHeader c = Config.RequestIdHeader config1
        ∧ ∀ name, ForwardRequestHeaders c !! name
                  = if decide (name ∈ Config.ForwardRequestHeaders config1)
                    then Some true else None)
  ∧ (Config.AuthUrl config1 = Config.AuthUrl config2 →
     Config.RequestIdHeader config1 = Config.RequestIdHeader config2 →
     Config.ResponseHeaders config1 = Config.ResponseHeaders config2 →
     (∀ name, name ∈ Config.ForwardRequestHeaders config1
              ↔ name ∈ Config.ForwardRequestHeaders config2) →
     outcome (GetAuthService DefaultClient_Do (ConfigPtr config1))
     = outcome (GetAuthService DefaultClient_Do (ConfigPtr config2))).
Proof.
  split.
  - eexists. split; [reflexivity|]. cbn. repeat split.
    intros name. by rewrite forwardHeadersMap_lookup, lookup_empty.
  - intros Hurl Hid Hresp Hsame. cbn. rewrite Hurl, Hid, Hresp. do 2 f_equal.
    apply map_eq. intros name. rewrite !forwardHeadersMap_lookup, lookup_empty.
    destruct (decide (name ∈ Config.ForwardRequestHeaders config1)) as [H1|H1].
    + by rewrite decide_True by (by apply Hsame).
    + by rewrite decide_False by (by rewrite <- Hsame).
Qed.

(** X17: the configuration that [NewConfigInstance] hands out is accepted as
    it is, and the service made from it forwards nothing, emits no header and
    has no request id. *)
Theorem NewConfigInstance_service :
  ∃ configInstance c,
    NewConfigInstance = Ok configInstance
    ∧ outcome (GetAuthService DefaultClient_Do configInstance) = Ok c
    ∧ ∀ rng r0 authzRequest data,
        forwardAllowedHeaders rng c r0 authzRequest = r0
        ∧ extractHeaders Sprintf_v_float rng data (AttributesToHeadersMap c) = []
        ∧ extractRequestId c authzRequest = None.
Proof.
  eexists _, _. split; [reflexivity|]. split; [reflexivity|].
  intros rng r0 authzRequest data. cbn. split; [|split; [|done]].
  - unfold forwardAllowedHeaders. cbn. by rewrite range_empty.
  - rewrite extractHeaders_omap. by rewrite range_empty.
Qed.

(** X19: when no two configured header names share an attribute, the earlier
    revision's attribute map is the exact inverse of the configured mapping,
    whatever the order of the range. *)
Theorem Earlier_GetAuthService_inverse_exact (rng : MapRange)
    (config : Earlier.Config.Config) :
  (∀ headerKey1 headerKey2 attribute,
     Earlier.Config.ResponseHeaders config !! headerKey1 = Some attribute →
     Earlier.Config.ResponseHeaders config !! headerKey2 = Some attribute →
     headerKey1 = headerKey2) →
  ∃ c, outcome (Earlier.GetAuthService DefaultClient_Do rng (Earlier.ConfigPtr config))
       = Ok c
       ∧ ∀ attribute headerKey,
           Earlier.AttributesToHeadersMap c !! attribute = Some headerKey
           ↔ Earlier.Config.ResponseHeaders config !! headerKey = Some attribute.
Proof.
  intros Hinj. eexists. split; [reflexivity|]. cbn.
  intros attribute headerKey.
  destruct (inverted_acc (range rng (Earlier.Config.ResponseHeaders config))
              ∅ attribute) as [Hback Hforth].
  split.
  - intros Hlook. destruct (Hback _ Hlook) as [Hin|Hempty].
    + by rewrite (range_perm rng), elem_of_map_to_list in Hin.
    + by rewrite lookup_empty in Hempty.
  - intros Hcfg. destruct Hforth as [headerKey' Hlook].
    { right. exists headerKey. by rewrite (range_perm rng), elem_of_map_to_list. }
    rewrite Hlook. f_equal. apply (Hinj _ _ attribute); [|done].
    destruct (Hback _ Hlook) as [Hin|Hempty].
    + by rewrite (range_perm rng), elem_of_map_to_list in Hin.
    + by rewrite lookup_empty in Hempty.
Qed.

End ConfigMore.

Lemma GetAuthService_forward_map_witness :
  outcome (GetAuthService example_Do (ConfigPtr example_config))
  = outcome (GetAuthService example_Do
               (ConfigPtr {| Config.AuthUrl := "http://auth/check";
                             Config.ForwardRequestHeaders :=
                               ["cookie"; "authorization"; "cookie"];
                             Config.RequestIdHeader := "x-request-id";
                             Config.ResponseHeaders :=
                               {[ "x-auth-subject-id" := "userid" ]} |})).
Proof.
  apply (GetAuthService_forward_map example_Do example_config);
    [reflexivity | reflexivity | reflexivity |].
  intros name. cbn. rewrite !elem_of_cons, !elem_of_nil. tauto.
Defined.

Lemma Earlier_GetAuthService_inverse_exact_witness :
  ∃ c, outcome (Earlier.GetAuthService example_Do range_reversed
                  (Earlier.ConfigPtr example_Earlier_config)) = Ok c
       ∧ Earlier.AttributesToHeadersMap c !! "userid" = Some "x-auth-subject-id".
Proof.
  destruct (Earlier_GetAuthService_inverse_exact example_Do range_reversed
              example_Earlier_config) as (c & Hc & Hinv).
  - intros h1 h2 attribute.
    change (Earlier.Config.ResponseHeaders example_Earlier_config)
      with (<["x-auth-subject-id" := "userid"]>
              ({[ "x-auth-roles" := "roles" ]} : gmap string string)).
    rewrite !lookup_insert_Some, !lookup_singleton_Some.
    intros [[? ?]|[? [? ?]]] [[? ?]|[? [? ?]]]; congruence.
  - exists c. split; [exact Hc|]. apply Hinv. vm_compute. reflexivity.
Defined.

(** ** [MarshalLogArray] *)

Lemma MarshalLogArray_acc (r : ResponseHeaders) (acc : list string) :
  foldl (λ appended opt,
           match opt with
           | Some (Some h) =>
               appended ++ [envoycorev2.Key h +:+ ": " +:+ envoycorev2.Value h]
           | _ => appended
           end) acc r
  = acc ++ omap (λ opt : option (option envoycorev2.HeaderValue),
                   match opt with
                   | Some (Some h) =>
                       Some (envoycorev2.Key h +:+ ": " +:+ envoycorev2.Value h)
                   | _ => None
                   end) r.
Proof.
  revert acc. induction r as [|opt r IH]; intros acc; cbn [foldl].
  - by rewrite app_nil_r.
  - rewrite IH, omap_cons_case. destruct opt as [[h|]|]; [|done|done].
    by rewrite <- app_assoc.
Qed.

(** X20: marshalling never fails; nil pointers and options without a header
    are passed over without a trace, so taking them out beforehand changes
    nothing; and the headers of an extraction come out one line each, in
    order, as [key: value]. *)
Theorem MarshalLogArray_lines (r : ResponseHeaders)
    (hs : list envoycorev2.HeaderValueOption) :
  (MarshalLogArray r).2 = None
  ∧ MarshalLogArray (filter (λ opt, has_header opt) r) = MarshalLogArray r
  ∧ (length (MarshalLogArray r).1 ≤ length r)%nat
  ∧ (MarshalLogArray (as_ResponseHeaders hs)).1
    = (λ hv, envoycorev2.Key (envoycorev2.Header hv) +:+ ": "
               +:+ envoycorev2.Value (envoycorev2.Header hv)) <$> hs.
Proof.
  unfold MarshalLogArray, ResponseHeaders in *. cbn [fst snd].
  rewrite !MarshalLogArray_acc. cbn [app].
  split; [done|]. split; [|split].
  - f_equal. induction r as [|opt r IH]; [done|].
    destruct opt as [[h|]|].
    + rewrite filter_cons_True by done. by rewrite !omap_cons_case, IH.
    + rewrite filter_cons_False by (by intros []). by rewrite omap_cons_case.
    + rewrite filter_cons_False by (by intros []). by rewrite omap_cons_case.
  - apply length_omap_le.
  - unfold as_ResponseHeaders. induction hs as [|hv hs IH]; [done|].
    by rewrite !fmap_cons, omap_cons_case, IH.
Qed.
